(** * entviz: reduction of an Ent schema graph and its rendering

    A shallow embedding of [entviz.go]: the reducer [toJsGraph], the JSON
    encoding of its result, the rendering of the page by [generateHTML] and
    the generation hook [VisualizeSchema].

    Go strings and byte slices are sequences of bytes: they are modelled as
    [string], whose characters are the 8-bit [ascii].

    The packages of the Go library that the code calls are modelled after
    their sources, as far as the code uses them: [unicode/utf8] and
    [encoding/json] for the payload, [html/template] for templates of text
    and field actions, [os] for the write of the page. The embedded assets,
    the parsed template [viz.tmpl], the wrapped generator and
    [filepath.Join] are parameters. *)

From Stdlib Require Import String Ascii NArith ZArith List Lia Bool.
From stdpp Require Import base option gmap strings.
Import ListNotations.

Open Scope string_scope.
Open Scope list_scope.

#[local] Arguments String.append !s1 s2 : simpl nomatch.

(** [lia] on quotients and remainders. *)
Ltac Zify.zify_post_hook ::= Z.to_euclidean_division_equations.

(** ** Go slices

    A slice is either [nil] or holds a (possibly empty) sequence;
    [json.Marshal] tells the two apart, so the model does too. Slices that
    the code only ranges over ([g.Nodes], [n.Fields], [n.Edges]) are plain
    lists: [range] runs zero times over [nil] and over an empty slice. *)

Definition slice (A : Type) : Type := option (list A).

Definition elems {A : Type} (s : slice A) : list A :=
  match s with
  | None => []
  | Some l => l
  end.

(** [append(s, x)]: the result is never [nil]. *)
Definition append {A : Type} (s : slice A) (x : A) : slice A :=
  Some (elems s ++ [x]).

(** The slice that repeated [append] builds from [nil]. *)
Definition appended {A : Type} (l : list A) : slice A :=
  match l with
  | [] => None
  | _ :: _ => Some l
  end.

(** ** The view of [entgo.io/ent/entc/gen] that [entviz.go] reads

    Of a field the code reads [f.Name], [f.Type.String()] and [f.Comment()];
    of an edge [e.Name], [e.Type.Name] and [e.IsInverse()]; of a type
    [n.Name], [n.Fields] and [n.Edges]; of the graph [g.Nodes] and
    [g.Config.Target]. *)

Module gen.

Record Field : Type := mkField {
  f_Name : string;
  f_Type_String : string;
  f_Comment : string
}.

Record Edge : Type := mkEdge {
  e_Name : string;
  e_Type_Name : string;
  e_IsInverse : bool
}.

Record Type_ : Type := mkType {
  t_Name : string;
  t_Fields : list Field;
  t_Edges : list Edge
}.

Record Config : Type := mkConfig {
  Target : string
}.

Record Graph : Type := mkGraph {
  g_Config : Config;
  g_Nodes : list Type_
}.

End gen.

(** ** The visualisation graph (entviz.go, lines 33-63) *)

Record jsField : Type := mkJsField {
  Name : string;
  Type_ : string;
  Comment : string
}.

Record jsEdge : Type := mkJsEdge {
  From : string;
  To : string;
  Label : string
}.

Record jsNode : Type := mkJsNode {
  ID : string;
  Fields : slice jsField
}.

Record jsGraph : Type := mkJsGraph {
  Nodes : slice jsNode;
  Edges : slice jsEdge
}.

(** ** The reducer (entviz.go, lines 76-101)

    The three loops of the source are three folds, each threading the value
    that its loop body updates. *)

Definition add_field (node : jsNode) (f : gen.Field) : jsNode :=
  {| ID := ID node;
     Fields := append (Fields node)
                 {| Name := gen.f_Name f;
                    Type_ := gen.f_Type_String f;
                    Comment := gen.f_Comment f |} |}.

Definition add_edge (n : gen.Type_) (graph : jsGraph) (e : gen.Edge) : jsGraph :=
  if gen.e_IsInverse e then graph
  else {| Nodes := Nodes graph;
          Edges := append (Edges graph)
                     {| From := gen.t_Name n;
                        To := gen.e_Type_Name e;
                        Label := gen.e_Name e |} |}.

Definition add_node (graph : jsGraph) (n : gen.Type_) : jsGraph :=
  let node := fold_left add_field (gen.t_Fields n)
                {| ID := gen.t_Name n; Fields := None |} in
  let graph := {| Nodes := append (Nodes graph) node; Edges := Edges graph |} in
  fold_left (add_edge n) (gen.t_Edges n) graph.

Definition toJsGraph (g : gen.Graph) : jsGraph :=
  fold_left add_node (gen.g_Nodes g) {| Nodes := None; Edges := None |}.

(** ** Errors

    The errors of the collaborators are values the code only passes on. *)

Inductive error : Type :=
| ErrNotExist (name : string)
| ErrCantEvaluateField (field : string)
| ErrExternal (msg : string).

(** ** What the reducer computes, as list functions *)

Definition field_of (f : gen.Field) : jsField :=
  {| Name := gen.f_Name f;
     Type_ := gen.f_Type_String f;
     Comment := gen.f_Comment f |}.

Definition node_of (n : gen.Type_) : jsNode :=
  {| ID := gen.t_Name n; Fields := appended (map field_of (gen.t_Fields n)) |}.

Definition edge_of (n : gen.Type_) (e : gen.Edge) : jsEdge :=
  {| From := gen.t_Name n; To := gen.e_Type_Name e; Label := gen.e_Name e |}.

Definition canonical (e : gen.Edge) : bool := negb (gen.e_IsInverse e).

Definition edges_of (n : gen.Type_) : list jsEdge :=
  map (edge_of n) (List.filter canonical (gen.t_Edges n)).

(** The number of relationship declarations of the graph that are not the
    inverse side of a pair. *)
Definition canonical_count (g : gen.Graph) : nat :=
  list_sum (map (fun n => length (List.filter canonical (gen.t_Edges n)))
                (gen.g_Nodes g)).

(** ** Bytes and sub-strings *)

(** [s[:n]] and [s[n:]] for [n] within the length of [s]. *)
Fixpoint take_bytes (n : nat) (s : string) : string :=
  match n, s with
  | S n', String c s' => String c (take_bytes n' s')
  | _, _ => EmptyString
  end.

Fixpoint drop_bytes (n : nat) (s : string) : string :=
  match n, s with
  | S n', String _ s' => drop_bytes n' s'
  | _, _ => s
  end.

(** The character of a byte value. *)
Definition byte (n : N) : ascii := ascii_of_N n.

(** The double quote and the backslash. *)
Definition dquote : ascii := byte 0x22.
Definition backslash : ascii := byte 0x5C.

(** Expected outputs below are written with an apostrophe where the output
    has a double quote; [js] puts the double quotes back. *)
Fixpoint js (s : string) : string :=
  match s with
  | EmptyString => EmptyString
  | String c s' => String (if Ascii.eqb c "'"%char then dquote else c) (js s')
  end.

(** ** Package [unicode/utf8] of the Go library, as [encoding/json] uses it

    Runes and byte values are numbers in [N]. *)

Module utf8.

Local Open Scope N_scope.

Definition RuneError : N := 0xFFFD.
Definition RuneSelf : N := 0x80.
Definition MaxRune : N := 0x10FFFF.
Definition UTFMax : nat := 4.

Definition surrogateMin : N := 0xD800.
Definition surrogateMax : N := 0xDFFF.

Definition tx : N := 0x80.
Definition t2 : N := 0xC0.
Definition t3 : N := 0xE0.
Definition t4 : N := 0xF0.

Definition maskx : N := 0x3F.
Definition mask2 : N := 0x1F.
Definition mask3 : N := 0x0F.
Definition mask4 : N := 0x07.

Definition rune1Max : N := 0x7F.
Definition rune2Max : N := 0x7FF.
Definition rune3Max : N := 0xFFFF.

Definition locb : N := 0x80.
Definition hicb : N := 0xBF.

(** The entries of the table [first]: the low three bits are the length
    of the sequence, the high four bits index [acceptRanges]. *)
Definition xx : N := 0xF1.
Definition as_ : N := 0xF0.
Definition s1 : N := 0x02.
Definition s2 : N := 0x13.
Definition s3 : N := 0x03.
Definition s4 : N := 0x23.
Definition s5 : N := 0x34.
Definition s6 : N := 0x04.
Definition s7 : N := 0x44.

(** The table [first], by ranges of the first byte. *)
Definition first (b : N) : N :=
  if b <? 0x80 then as_
  else if b <? 0xC2 then xx
  else if b <? 0xE0 then s1
  else if b =? 0xE0 then s2
  else if b <? 0xED then s3
  else if b =? 0xED then s4
  else if b <? 0xF0 then s3
  else if b =? 0xF0 then s5
  else if b <? 0xF4 then s6
  else if b =? 0xF4 then s7
  else xx.

(** The table [acceptRanges]: the bounds of the second byte. *)
Definition acceptRanges (i : N) : N * N :=
  match i with
  | 0 => (locb, hicb)
  | 1 => (0xA0, hicb)
  | 2 => (locb, 0x9F)
  | 3 => (0x90, hicb)
  | 4 => (locb, 0x8F)
  | _ => (0, 0)
  end%N.

(** [DecodeRuneInString] (and [DecodeRune], the same code on a byte
    slice): the rune at the head of [s] and its width in bytes. For the
    entries [as] and [xx] the source selects between the byte and
    [RuneError] with a mask made of the lowest bit of the entry. *)
Definition DecodeRuneInString (s : string) : N * nat :=
  match s with
  | EmptyString => (RuneError, 0%nat)
  | String c0 r0 =>
    let b0 := N_of_ascii c0 in
    let x := first b0 in
    if as_ <=? x then
      (if N.testbit x 0 then RuneError else b0, 1%nat)
    else
      let sz := N.to_nat (N.land x 7) in
      let accept := acceptRanges (N.shiftr x 4) in
      if (String.length s <? sz)%nat then (RuneError, 1%nat)
      else
        match r0 with
        | EmptyString => (RuneError, 1%nat)
        | String c1 r1 =>
          let b1 := N_of_ascii c1 in
          if (b1 <? fst accept) || (snd accept <? b1) then (RuneError, 1%nat)
          else if (sz <=? 2)%nat then
            (N.lor (N.shiftl (N.land b0 mask2) 6) (N.land b1 maskx), 2%nat)
          else
            match r1 with
            | EmptyString => (RuneError, 1%nat)
            | String c2 r2 =>
              let b2 := N_of_ascii c2 in
              if (b2 <? locb) || (hicb <? b2) then (RuneError, 1%nat)
              else if (sz <=? 3)%nat then
                (N.lor (N.lor (N.shiftl (N.land b0 mask3) 12)
                              (N.shiftl (N.land b1 maskx) 6))
                       (N.land b2 maskx), 3%nat)
              else
                match r2 with
                | EmptyString => (RuneError, 1%nat)
                | String c3 _ =>
                  let b3 := N_of_ascii c3 in
                  if (b3 <? locb) || (hicb <? b3) then (RuneError, 1%nat)
                  else
                    (N.lor (N.lor (N.lor (N.shiftl (N.land b0 mask4) 18)
                                         (N.shiftl (N.land b1 maskx) 12))
                                  (N.shiftl (N.land b2 maskx) 6))
                           (N.land b3 maskx), 4%nat)
                end
            end
        end
  end.

(** The low eight bits of a number, as a byte: the conversion [byte(r)]. *)
Definition low8 (r : N) : N := N.land r 0xFF.

(** [EncodeRune], returning the bytes that the source writes to [p]. *)
Definition EncodeRune (r : N) : string :=
  if r <=? rune1Max then
    String (byte (low8 r)) EmptyString
  else if r <=? rune2Max then
    String (byte (N.lor t2 (low8 (N.shiftr r 6))))
      (String (byte (N.lor tx (N.land (low8 r) maskx))) EmptyString)
  else if (r <? surrogateMin) || ((surrogateMax <? r) && (r <=? rune3Max)) then
    String (byte (N.lor t3 (low8 (N.shiftr r 12))))
      (String (byte (N.lor tx (N.land (low8 (N.shiftr r 6)) maskx)))
         (String (byte (N.lor tx (N.land (low8 r) maskx))) EmptyString))
  else if (rune3Max <? r) && (r <=? MaxRune) then
    String (byte (N.lor t4 (low8 (N.shiftr r 18))))
      (String (byte (N.lor tx (N.land (low8 (N.shiftr r 12)) maskx)))
         (String (byte (N.lor tx (N.land (low8 (N.shiftr r 6)) maskx)))
            (String (byte (N.lor tx (N.land (low8 r) maskx))) EmptyString)))
  else
    String (byte 0xEF) (String (byte 0xBF) (String (byte 0xBD) EmptyString)).

(** Well-formed UTF-8: every step of the decoder yields a rune, never
    the pair of [RuneError] and width 1 that marks a malformed byte;
    [fuel] bounds the number of runes. *)
Fixpoint valid_loop (fuel : nat) (s : string) : bool :=
  match fuel with
  | O => match s with EmptyString => true | _ => false end
  | S fuel' =>
    match s with
    | EmptyString => true
    | String _ _ =>
      let '(r, size) := DecodeRuneInString s in
      if (r =? RuneError) && (size =? 1)%nat then false
      else valid_loop fuel' (drop_bytes size s)
    end
  end.

Definition well_formed (s : string) : bool := valid_loop (String.length s) s.

End utf8.

(** ** Package [encoding/json] of the Go library: encoding

    [json.Marshal] walks the value by reflection. The values that occur in
    a [jsGraph] are strings, slices and structs; a struct is encoded as its
    exported fields in the order of their declaration, each under the key
    of its [json] tag. The escapes are those of Go 1.22 and later, which
    has the short forms for backspace and form feed too. *)

Module json.

Local Open Scope N_scope.

#[warning="-register-all"]
Inductive value : Type :=
| VString (s : string)
| VSlice (s : slice value)
| VStruct (fields : list (string * value)).

Definition hex (n : N) : ascii :=
  match String.get (N.to_nat n) "0123456789abcdef" with
  | Some c => c
  | None => "0"%char
  end.

(** The table [htmlSafeSet]: the ASCII bytes that are copied as they
    are when HTML escaping is on, as it is for [json.Marshal]. *)
Definition htmlSafeSet (b : N) : bool :=
  (0x20 <=? b) && (b <? 0x80)
  && negb ((b =? 0x22) || (b =? 0x26) || (b =? 0x3C) || (b =? 0x3E)
           || (b =? 0x5C)).

(** The [switch] of [appendString] on an ASCII byte that is not safe. *)
Definition escape_byte (b : N) : string :=
  if (b =? 0x5C) || (b =? 0x22) then String backslash (String (byte b) "")
  else if b =? 0x08 then String backslash "b"
  else if b =? 0x0C then String backslash "f"
  else if b =? 0x0A then String backslash "n"
  else if b =? 0x0D then String backslash "r"
  else if b =? 0x09 then String backslash "t"
  else String backslash
         (String "u" (String "0" (String "0"
            (String (hex (N.shiftr b 4)) (String (hex (N.land b 0xF)) ""))))).

(** The loop of [appendString] with [escapeHTML] set. The source keeps
    the index [start] of the bytes not yet copied and copies them in
    runs; here every step emits its bytes at once. Each step consumes at
    least one byte, so [fuel] is the length of the input. *)
Fixpoint appendString_loop (fuel : nat) (src : string) : string :=
  match fuel with
  | O => ""
  | S fuel' =>
    match src with
    | EmptyString => ""
    | String c rest =>
      let b := N_of_ascii c in
      if b <? utf8.RuneSelf then
        (if htmlSafeSet b then String c "" else escape_byte b)
          +:+ appendString_loop fuel' rest
      else
        let '(r, size) :=
          utf8.DecodeRuneInString (take_bytes utf8.UTFMax src) in
        if (r =? utf8.RuneError) && (size =? 1)%nat then
          String backslash "ufffd"
            +:+ appendString_loop fuel' (drop_bytes size src)
        else if (r =? 0x2028) || (r =? 0x2029) then
          String backslash
            (String "u" (String "2" (String "0" (String "2"
               (String (hex (N.land r 0xF)) "")))))
            +:+ appendString_loop fuel' (drop_bytes size src)
        else
          take_bytes size src
            +:+ appendString_loop fuel' (drop_bytes size src)
    end
  end.

(** The text between the quotes. *)
Definition escaped (src : string) : string :=
  appendString_loop (String.length src) src.

Definition appendString (src : string) : string :=
  String dquote (escaped src +:+ String dquote "").

(** The encoders: [stringEncoder]; [sliceEncoder], which writes [null]
    for a nil slice and otherwise the elements between brackets, a comma
    before each but the first; [structEncoder], which writes the fields
    between braces, each as its quoted key, a colon and its value, a
    comma before each but the first. *)
Fixpoint encode (v : value) : string :=
  match v with
  | VString s => appendString s
  | VSlice None => "null"
  | VSlice (Some l) => "[" +:+ String.concat "," (map encode l) +:+ "]"
  | VStruct fs =>
    "{" +:+ String.concat ","
              (map (fun kv => String dquote (fst kv +:+ String dquote ":")
                                +:+ encode (snd kv)) fs)
        +:+ "}"
  end.

(** [Marshal]: the bytes and the error. None of the three encoders has an
    error, so for these values the error is always [nil]. *)
Definition Marshal (v : value) : string * option error := (encode v, None).

(** *** Decoding of a string literal

    [getu4]: the number written as [\uXXXX] at the head of [s]; [None]
    stands for the result -1 of the source. *)
Definition hexval (c : ascii) : option N :=
  let b := N_of_ascii c in
  if (0x30 <=? b) && (b <=? 0x39) then Some (b - 0x30)
  else if (0x61 <=? b) && (b <=? 0x66) then Some (b - 0x61 + 10)
  else if (0x41 <=? b) && (b <=? 0x46) then Some (b - 0x41 + 10)
  else None.

Definition getu4 (s : string) : option N :=
  match s with
  | String c0 (String c1 (String h0 (String h1 (String h2 (String h3 _))))) =>
    if negb (N_of_ascii c0 =? 0x5C) || negb (N_of_ascii c1 =? 0x75) then None
    else
      fold_left
        (fun (r : option N) (c : ascii) =>
           match r, hexval c with
           | Some r, Some d => Some (r * 16 + d)
           | _, _ => None
           end)
        [h0; h1; h2; h3] (Some 0)
  | _ => None
  end.

(** Package [unicode/utf16]: [IsSurrogate] and [DecodeRune], the latter
    on a second half that may be the -1 of [getu4]. *)
Definition surr1 : N := 0xD800.
Definition surr2 : N := 0xDC00.
Definition surr3 : N := 0xE000.
Definition surrSelf : N := 0x10000.
Definition replacementChar : N := 0xFFFD.

Definition IsSurrogate (r : N) : bool := (surr1 <=? r) && (r <? surr3).

Definition utf16_DecodeRune (r1 : N) (r2 : option N) : N :=
  match r2 with
  | Some r2 =>
    if (surr1 <=? r1) && (r1 <? surr2) && (surr2 <=? r2) && (r2 <? surr3)
    then N.lor (N.shiftl (r1 - surr1) 10) (r2 - surr2) + surrSelf
    else replacementChar
  | None => replacementChar
  end.

(** The first loop of [unquoteBytes]: the length of the prefix that needs
    no unquoting. *)
Fixpoint clean_prefix (fuel : nat) (s : string) : nat :=
  match fuel with
  | O => O
  | S fuel' =>
    match s with
    | EmptyString => O
    | String c rest =>
      let b := N_of_ascii c in
      if (b =? 0x5C) || (b =? 0x22) || (b <? 0x20) then O
      else if b <? utf8.RuneSelf then S (clean_prefix fuel' rest)
      else
        let '(rr, size) := utf8.DecodeRuneInString s in
        if (rr =? utf8.RuneError) && (size =? 1)%nat then O
        else (size + clean_prefix fuel' (drop_bytes size s))%nat
    end
  end.

(** The second loop of [unquoteBytes], from the byte it is at to the end
    of the text: the bytes it writes, or [None] where the source returns
    not ok. *)
Fixpoint unquote_loop (fuel : nat) (s : string) : option string :=
  match fuel with
  | O => match s with EmptyString => Some "" | _ => None end
  | S fuel' =>
    match s with
    | EmptyString => Some ""
    | String c rest =>
      let b := N_of_ascii c in
      if b =? 0x5C then
        match rest with
        | EmptyString => None
        | String c1 rest1 =>
          let b1 := N_of_ascii c1 in
          if (b1 =? 0x22) || (b1 =? 0x5C) || (b1 =? 0x2F) || (b1 =? 0x27) then
            option_map (String c1) (unquote_loop fuel' rest1)
          else if b1 =? 0x62 then
            option_map (String (byte 0x08)) (unquote_loop fuel' rest1)
          else if b1 =? 0x66 then
            option_map (String (byte 0x0C)) (unquote_loop fuel' rest1)
          else if b1 =? 0x6E then
            option_map (String (byte 0x0A)) (unquote_loop fuel' rest1)
          else if b1 =? 0x72 then
            option_map (String (byte 0x0D)) (unquote_loop fuel' rest1)
          else if b1 =? 0x74 then
            option_map (String (byte 0x09)) (unquote_loop fuel' rest1)
          else if b1 =? 0x75 then
            match getu4 s with
            | None => None
            | Some rr =>
              let s6 := drop_bytes 6 s in
              if IsSurrogate rr then
                let dec := utf16_DecodeRune rr (getu4 s6) in
                if negb (dec =? replacementChar) then
                  option_map (String.append (utf8.EncodeRune dec))
                             (unquote_loop fuel' (drop_bytes 6 s6))
                else
                  option_map (String.append (utf8.EncodeRune replacementChar))
                             (unquote_loop fuel' s6)
              else
                option_map (String.append (utf8.EncodeRune rr))
                           (unquote_loop fuel' s6)
            end
          else None
        end
      else if (b =? 0x22) || (b <? 0x20) then None
      else if b <? utf8.RuneSelf then
        option_map (String c) (unquote_loop fuel' rest)
      else
        let '(rr, size) := utf8.DecodeRuneInString s in
        option_map (String.append (utf8.EncodeRune rr))
                   (unquote_loop fuel' (drop_bytes size s))
    end
  end.

(** The last byte of a string and the string without it. *)
Fixpoint split_last (s : string) : option (string * ascii) :=
  match s with
  | EmptyString => None
  | String c EmptyString => Some (EmptyString, c)
  | String c s' =>
    match split_last s' with
    | Some (body, l) => Some (String c body, l)
    | None => None
    end
  end.

(** [unquoteBytes]: the text of a quoted string literal; [None] where
    the source returns not ok. *)
Definition unquoteBytes (s : string) : option string :=
  match s with
  | String q s' =>
    match split_last s' with
    | Some (body, l) =>
      if negb (N_of_ascii q =? 0x22) || negb (N_of_ascii l =? 0x22) then None
      else
        let r := clean_prefix (String.length body) body in
        if (r =? String.length body)%nat then Some body
        else
          option_map (String.append (take_bytes r body))
                     (unquote_loop (String.length body) (drop_bytes r body))
    | None => None
    end
  | EmptyString => None
  end.

End json.

(** ** The struct types as [json.Marshal] sees them (entviz.go, lines 33-63)

    The keys are the [json] tags, in the order of the declarations. *)

Definition value_of_jsField (f : jsField) : json.value :=
  json.VStruct [ ("name", json.VString (Name f));
                 ("type", json.VString (Type_ f));
                 ("comment", json.VString (Comment f)) ].

Definition value_of_jsEdge (e : jsEdge) : json.value :=
  json.VStruct [ ("from", json.VString (From e));
                 ("to", json.VString (To e));
                 ("label", json.VString (Label e)) ].

Definition value_of_slice {A : Type} (f : A -> json.value) (s : slice A) : json.value :=
  json.VSlice (option_map (map f) s).

Definition value_of_jsNode (n : jsNode) : json.value :=
  json.VStruct [ ("id", json.VString (ID n));
                 ("fields", value_of_slice value_of_jsField (Fields n)) ].

Definition value_of_jsGraph (g : jsGraph) : json.value :=
  json.VStruct [ ("nodes", value_of_slice value_of_jsNode (Nodes g));
                 ("edges", value_of_slice value_of_jsEdge (Edges g)) ].

(** The bytes of [json.Marshal(&graph)], and of [json.Marshal(field)] as
    the tests call it. *)
Definition Marshal (g : jsGraph) : string :=
  fst (json.Marshal (value_of_jsGraph g)).

Definition Marshal_jsField (f : jsField) : string :=
  fst (json.Marshal (value_of_jsField f)).

(** The payload of the page: the bytes of lines 146-147 of [generateHTML]. *)
Definition graphJSON (g : gen.Graph) : string := Marshal (toJsGraph g).

(** A byte slice that may be [nil], as [generateHTML] returns it. *)
Definition bytes : Type := option string.

Definition bytes_of (b : bytes) : string :=
  match b with
  | None => ""
  | Some s => s
  end.

(** ** The embedded assets (entviz.go, lines 108-109)

    [assets] is a read-only file system; [fs.ReadFile] gives the content
    of a file or an error for a file that is not there. *)

Module fs.

Abbreviation FS := (gmap string string).

Definition ReadFile (fsys : FS) (name : string) : string + error :=
  match fsys !! name with
  | Some content => inl content
  | None => inr (ErrNotExist name)
  end.

End fs.

(** ** The template data (entviz.go, lines 113-118) *)

Record templateData : Type := mkTemplateData {
  FiraCodeCSS : string;
  VisNetworkJS : string;
  RandomColorJS : string;
  GraphJSON : string
}.

(** ** Package [html/template] of the Go library, for the templates used here

    The text of [viz.tmpl] is not part of the sources at hand, so the parsed
    template is a parameter of the renderer. A template is a sequence of
    literal text and of actions [{{.Field}}]. Execution writes the nodes in
    order to the buffer; an action whose field the data does not have stops
    it with an error, after the nodes before it have been written. The
    fields of [templateData] have the types [template.CSS] and
    [template.JS]: in a style element and in a script element, where the
    specification places the slots, the package writes such values as they
    are, and so does this model. *)

Module template.

Inductive Node : Type :=
| Text (s : string)
| Field (name : string).

Definition Template : Type := list Node.

(** The field of the data that an action names. *)
Definition evalField (data : templateData) (name : string) : string + error :=
  if String.eqb name "FiraCodeCSS" then inl (FiraCodeCSS data)
  else if String.eqb name "VisNetworkJS" then inl (VisNetworkJS data)
  else if String.eqb name "RandomColorJS" then inl (RandomColorJS data)
  else if String.eqb name "GraphJSON" then inl (GraphJSON data)
  else inr (ErrCantEvaluateField name).

(** [Execute(&b, data)]: the buffer after the call and the error. *)
Fixpoint Execute (t : Template) (data : templateData) (b : string)
  : string * option error :=
  match t with
  | [] => (b, None)
  | Text s :: t' => Execute t' data (b +:+ s)
  | Field name :: t' =>
    match evalField data name with
    | inl v => Execute t' data (b +:+ v)
    | inr err => (b, Some err)
    end
  end.


End template.


(** ** Package [os] of the Go library: [WriteFile]

    [WriteFile] opens the file with [O_WRONLY|O_CREATE|O_TRUNC], writes the
    data and closes the file; it returns the first error. What the
    operating system does on each of the three calls is given by a [Fault]:
    an error on opening, the number of bytes written before an error, an
    error on closing. *)

Module os.

Abbreviation Files := (gmap string string).

Record Fault : Type := mkFault {
  open_fault : option error;
  write_fault : option (nat * error);
  close_fault : option error
}.

Definition no_fault : Fault := mkFault None None None.

Definition WriteFile (flt : Fault) (name data : string) (files : Files)
  : Files * option error :=
  match open_fault flt with
  | Some err => (files, Some err)
  | None =>
    let files := <[name := ""]> files in
    let '(files, err) :=
      match write_fault flt with
      | Some (n, err) => (<[name := take_bytes n data]> files, Some err)
      | None => (<[name := data]> files, None)
      end in
    match close_fault flt, err with
    | Some err1, None => (files, Some err1)
    | _, _ => (files, err)
    end
  end.

End os.

(** ** The renderer and the hook (entviz.go, lines 132-189) *)

Section Generator.

(** The embedded files and the parsed template [viztmpl]. *)
Variable assets : fs.FS.
Variable viztmpl : template.Template.

(** [generateHTML] returns the page and no error, or [nil] and an error. *)
Definition generateHTML (g : gen.Graph) : bytes * option error :=
  match fs.ReadFile assets "assets/fira_code.css" with
  | inr err => (None, Some err)
  | inl firaCodeCSS =>
    match fs.ReadFile assets "assets/vis-network.min.js" with
    | inr err => (None, Some err)
    | inl visNetworkJS =>
      match fs.ReadFile assets "assets/randomcolor.min.js" with
      | inr err => (None, Some err)
      | inl randomColorJS =>
        let graph := toJsGraph g in
        match json.Marshal (value_of_jsGraph graph) with
        | (_, Some err) => (None, Some err)
        | (graphJSON, None) =>
          let data := {| FiraCodeCSS := firaCodeCSS;
                         VisNetworkJS := visNetworkJS;
                         RandomColorJS := randomColorJS;
                         GraphJSON := graphJSON |} in
          match template.Execute viztmpl data "" with
          | (_, Some err) => (None, Some err)
          | (b, None) => (Some b, None)
          end
        end
      end
    end
  end.

(** The state that generators act on, the wrapped generator, the file
    write of the operating system and [filepath.Join]. *)
Variable World : Type.
Variable WriteFile : string -> string -> World -> World * option error.
Variable Join : string -> string -> string.

Definition Generator : Type := gen.Graph -> World -> World * option error.

Definition VisualizeSchema (next : Generator) : Generator :=
  fun g w =>
    match next g w with
    | (w, Some err) => (w, Some err)
    | (w, None) =>
      match generateHTML g with
      | (_, Some err) => (w, Some err)
      | (buf, None) =>
        let path := Join (gen.Target (gen.g_Config g)) "schema-viz.html" in
        WriteFile path (bytes_of buf) w
      end
    end.

End Generator.

(** [filepath.Join] on a directory without a trailing separator and a file
    name, both clean. *)
Definition join_clean (dir file : string) : string := dir +:+ "/" +:+ file.

(** ** The standalone entry point (entviz.go, lines 236-242)

    [entc.LoadGraph] belongs to the framework: it is a parameter, which
    gives the graph of a schema directory or an error; the configuration may
    be [nil]. *)

Section Standalone.

Variable assets : fs.FS.
Variable viztmpl : template.Template.
Variable LoadGraph : string -> option gen.Config -> gen.Graph + error.

Definition GeneratePage (schemaPath : string) (cfg : option gen.Config)
  : bytes * option error :=
  match LoadGraph schemaPath cfg with
  | inr err => (None, Some err)
  | inl g => generateHTML assets viztmpl g
  end.

End Standalone.

(** ** Definitions used to state the properties *)

(** Every byte of the string satisfies the test. *)
Fixpoint all_bytes (p : N -> bool) (s : string) : bool :=
  match s with
  | EmptyString => true
  | String c s' => p (N_of_ascii c) && all_bytes p s'
  end.

(** The encoding of the pieces of a [jsGraph], written out. *)

Definition encode_slice {A : Type} (enc : A -> string) (s : slice A) : string :=
  match s with
  | None => "null"
  | Some l => "[" +:+ String.concat "," (map enc l) +:+ "]"
  end.

Definition encode_jsEdge (e : jsEdge) : string :=
  js "{'from':" +:+ json.appendString (From e)
    +:+ js ",'to':" +:+ json.appendString (To e)
    +:+ js ",'label':" +:+ json.appendString (Label e) +:+ "}".

Definition encode_jsNode (n : jsNode) : string :=
  js "{'id':" +:+ json.appendString (ID n)
    +:+ js ",'fields':" +:+ encode_slice Marshal_jsField (Fields n) +:+ "}".

(** The graph of the end-to-end scenario: [User], with one field and a
    relationship [pets] to [Pet], and [Pet], with no field and no
    relationship. *)
Definition userPet : gen.Graph :=
  gen.mkGraph (gen.mkConfig "ent")
    [ gen.mkType "User" [gen.mkField "name" "string" "用户姓名"]
                 [gen.mkEdge "pets" "Pet" false];
      gen.mkType "Pet" [] [] ].

(** *** Well-formed sequences of UTF-8

    [sequence s size]: the string [s] starts with a well-formed sequence of
    [size] bytes, two to four. *)

Section Sequences.

Local Open Scope N_scope.

(** A continuation byte, and the bounds of the second byte after a first
    byte of a sequence of three or of four bytes. *)
Definition cont (b : N) : Prop := 0x80 <= b <= 0xBF.

Definition lo3 (b0 : N) : N := if b0 =? 0xE0 then 0xA0 else 0x80.
Definition hi3 (b0 : N) : N := if b0 =? 0xED then 0x9F else 0xBF.
Definition lo4 (b0 : N) : N := if b0 =? 0xF0 then 0x90 else 0x80.
Definition hi4 (b0 : N) : N := if b0 =? 0xF4 then 0x8F else 0xBF.

Inductive sequence : string -> nat -> Prop :=
| seq2 c0 c1 rest :
    0xC2 <= N_of_ascii c0 <= 0xDF -> cont (N_of_ascii c1) ->
    sequence (String c0 (String c1 rest)) 2
| seq3 c0 c1 c2 rest :
    0xE0 <= N_of_ascii c0 <= 0xEF ->
    lo3 (N_of_ascii c0) <= N_of_ascii c1 <= hi3 (N_of_ascii c0) ->
    cont (N_of_ascii c2) ->
    sequence (String c0 (String c1 (String c2 rest))) 3
| seq4 c0 c1 c2 c3 rest :
    0xF0 <= N_of_ascii c0 <= 0xF4 ->
    lo4 (N_of_ascii c0) <= N_of_ascii c1 <= hi4 (N_of_ascii c0) ->
    cont (N_of_ascii c2) -> cont (N_of_ascii c3) ->
    sequence (String c0 (String c1 (String c2 (String c3 rest)))) 4.

End Sequences.

(** *** Predicates on the payload *)

Section Payload.

Local Open Scope N_scope.

(** The escape that [appendString] writes for U+2028 and U+2029. *)
Definition sep_escape (r : N) : string :=
  String backslash
    (String "u" (String "2" (String "0" (String "2"
       (String (json.hex (N.land r 0xF)) ""))))).


(** The text after a string literal of JavaScript, read from after its
    opening quote: a backslash takes the next byte with it and the first
    double quote that no backslash takes ends the literal; [None] if the
    text ends before the literal does. *)
Fixpoint after_literal (s : string) : option string :=
  match s with
  | EmptyString => None
  | String c rest =>
    if N_of_ascii c =? 0x22 then Some rest
    else if N_of_ascii c =? 0x5C then
      match rest with
      | EmptyString => None
      | String _ rest' => after_literal rest'
      end
    else after_literal rest
  end.

(** The character U+2028 and a byte that no encoding of a character
    starts with. *)
Definition line_separator : string :=
  String (byte 0xE2) (String (byte 0x80) (String (byte 0xA8) "")).

Definition stray_byte : string := String (byte 0xFF) "".

End Payload.

(** *** Reading the payload *)

Section Reading.

Local Open Scope N_scope.

(** A reader of the JSON values that the payload is made of: string
    literals, [null], arrays and objects, without white space. [skip fuel m s]
    is the text after the value ([Value]), after the elements and the closing
    bracket of an array ([Elems]) or after the members and the closing brace
    of an object ([Members]) at the head of [s]; [None] if [s] does not start
    with one, or if [fuel], which bounds the number of values, runs out. *)
Inductive mode : Type := Value | Elems | Members.

Definition is_byte (c : ascii) (b : N) : bool := N_of_ascii c =? b.

Definition after_null (s : string) : option string :=
  match s with
  | String c0 (String c1 (String c2 rest)) =>
    if is_byte c0 0x75 && is_byte c1 0x6C && is_byte c2 0x6C then Some rest
    else None
  | _ => None
  end.

Definition skip_step (rec : mode -> string -> option string)
           (m : mode) (s : string) : option string :=
  match m with
  | Value =>
    match s with
    | String c rest =>
      if is_byte c 0x22 then after_literal rest
      else if is_byte c 0x6E then after_null rest
      else if is_byte c 0x5B then
        match rest with
        | String c' rest' =>
          if is_byte c' 0x5D then Some rest' else rec Elems rest
        | EmptyString => None
        end
      else if is_byte c 0x7B then
        match rest with
        | String c' rest' =>
          if is_byte c' 0x7D then Some rest' else rec Members rest
        | EmptyString => None
        end
      else None
    | EmptyString => None
    end
  | Elems =>
    match rec Value s with
    | Some (String c rest) =>
      if is_byte c 0x2C then rec Elems rest
      else if is_byte c 0x5D then Some rest
      else None
    | _ => None
    end
  | Members =>
    match s with
    | String q rest =>
      if is_byte q 0x22 then
        match after_literal rest with
        | Some (String colon rest1) =>
          if is_byte colon 0x3A then
            match rec Value rest1 with
            | Some (String c rest2) =>
              if is_byte c 0x2C then rec Members rest2
              else if is_byte c 0x7D then Some rest2
              else None
            | _ => None
            end
          else None
        | _ => None
        end
      else None
    | EmptyString => None
    end
  end.

Fixpoint skip (fuel : nat) : mode -> string -> option string :=
  match fuel with
  | O => fun _ _ => None
  | S fuel' => skip_step (skip fuel')
  end.

(** The text [s] is one value: the reader stops right after it. *)
Definition one_value (s : string) : Prop :=
  exists fuel, forall rest, skip fuel Value (s +:+ rest) = Some rest.

(** A key without quote or backslash, and a member of an object: the quoted
    key, a colon and the text of the value. *)
Definition plain_key (k : string) : bool :=
  all_bytes (fun b => negb (b =? 0x22) && negb (b =? 0x5C)) k.

Definition member (kv : string * string) : string :=
  String dquote (fst kv +:+ String dquote ":") +:+ snd kv.

End Reading.

(** *** Rendering *)





(** Assets for the examples. *)
Definition sample_assets : fs.FS :=
  <["assets/fira_code.css" := "body{}"]>
    (<["assets/vis-network.min.js" := "var vis;"]>
       (<["assets/randomcolor.min.js" := "var randomColor;"]> ∅)).

(** A write that fails after three bytes. *)
Definition disk_full : os.Fault :=
  os.mkFault None (Some (3, ErrExternal "no space left on device")) None.

(** *** More definitions used to state properties *)

(** The entity without its inverse declarations, and the graph whose
    entities are without them. *)
Definition canonical_only (n : gen.Type_) : gen.Type_ :=
  {| gen.t_Name := gen.t_Name n;
     gen.t_Fields := gen.t_Fields n;
     gen.t_Edges := List.filter canonical (gen.t_Edges n) |}.

Definition without_inverses (g : gen.Graph) : gen.Graph :=
  {| gen.g_Config := gen.g_Config g;
     gen.g_Nodes := map canonical_only (gen.g_Nodes g) |}.

(** The path of the page of a graph. *)
Definition page_path (Join : string -> string -> string) (g : gen.Graph) : string :=
  Join (gen.Target (gen.g_Config g)) "schema-viz.html".

(** A generator that does nothing. *)
Definition idle {World : Type} : Generator World := fun _ w => (w, None).

(** A text of ASCII bytes. *)
Section MoreDefinitions.

Local Open Scope N_scope.

Definition ascii_only (s : string) : bool := all_bytes (fun b => b <? 0x80) s.

End MoreDefinitions.

(** The texts of a field, an edge, a node and a graph are well-formed
    UTF-8. *)
Definition wf_field (f : jsField) : Prop :=
  utf8.well_formed (Name f) = true /\ utf8.well_formed (Type_ f) = true
  /\ utf8.well_formed (Comment f) = true.

Definition wf_edge (e : jsEdge) : Prop :=
  utf8.well_formed (From e) = true /\ utf8.well_formed (To e) = true
  /\ utf8.well_formed (Label e) = true.

Definition wf_node (n : jsNode) : Prop :=
  utf8.well_formed (ID n) = true /\ Forall wf_field (elems (Fields n)).

Definition wf_graph (g : jsGraph) : Prop :=
  Forall wf_node (elems (Nodes g)) /\ Forall wf_edge (elems (Edges g)).

(** What follows an element of an array: the closing bracket, or a comma,
    the elements left and the closing bracket. *)
Definition after_elem {A : Type} (enc : A -> string) (l : list A) : string :=
  match l with
  | [] => "]"
  | _ :: _ => "," +:+ String.concat "," (map enc l) +:+ "]"
  end.

(* ================================================================= *)
(** * Properties *)

(** ** Lemmas on slices *)

Lemma elems_append {A : Type} (s : slice A) (x : A) :
  elems (append s x) = elems s ++ [x].
Proof. reflexivity. Qed.

Lemma elems_appended {A : Type} (l : list A) : elems (appended l) = l.
Proof. destruct l; reflexivity. Qed.

Lemma appended_elems_append {A : Type} (s : slice A) (x : A) :
  append s x = appended (elems s ++ [x]).
Proof.
  unfold append. destruct (elems s); reflexivity.
Qed.

Lemma appended_snoc {A : Type} (l : list A) (x : A) :
  append (appended l) x = appended (l ++ [x]).
Proof. rewrite appended_elems_append, elems_appended. reflexivity. Qed.

(** ** The folds of the reducer *)

Lemma fold_add_field (fs : list gen.Field) (id : string) (acc : list jsField) :
  fold_left add_field fs {| ID := id; Fields := appended acc |}
  = {| ID := id; Fields := appended (acc ++ map field_of fs) |}.
Proof.
  revert acc. induction fs as [|f fs IH]; intros acc; simpl.
  - now rewrite app_nil_r.
  - unfold add_field at 2. simpl. rewrite appended_snoc, IH.
    now rewrite <- app_assoc.
Qed.

Lemma fold_add_edge (n : gen.Type_) (es : list gen.Edge)
      (ns : slice jsNode) (acc : list jsEdge) :
  fold_left (add_edge n) es {| Nodes := ns; Edges := appended acc |}
  = {| Nodes := ns;
       Edges := appended (acc ++ map (edge_of n) (List.filter canonical es)) |}.
Proof.
  revert acc. induction es as [|e es IH]; intros acc; simpl.
  - now rewrite app_nil_r.
  - unfold add_edge at 2, canonical at 1. destruct (gen.e_IsInverse e); simpl.
    + apply IH.
    + rewrite appended_snoc, IH. now rewrite <- app_assoc.
Qed.

Lemma add_node_appended (n : gen.Type_) (ns : list jsNode) (es : list jsEdge) :
  add_node {| Nodes := appended ns; Edges := appended es |} n
  = {| Nodes := appended (ns ++ [node_of n]);
       Edges := appended (es ++ edges_of n) |}.
Proof.
  unfold add_node. simpl.
  change (@None (list jsField)) with (appended (@nil jsField)).
  rewrite fold_add_field. simpl. rewrite appended_snoc.
  apply fold_add_edge.
Qed.

Lemma fold_add_node (l : list gen.Type_) (ns : list jsNode) (es : list jsEdge) :
  fold_left add_node l {| Nodes := appended ns; Edges := appended es |}
  = {| Nodes := appended (ns ++ map node_of l);
       Edges := appended (es ++ flat_map edges_of l) |}.
Proof.
  revert ns es. induction l as [|n l IH]; intros ns es; simpl.
  - now rewrite !app_nil_r.
  - rewrite add_node_appended, IH. now rewrite <- !app_assoc.
Qed.

Lemma toJsGraph_eq (g : gen.Graph) :
  toJsGraph g
  = {| Nodes := appended (map node_of (gen.g_Nodes g));
       Edges := appended (flat_map edges_of (gen.g_Nodes g)) |}.
Proof.
  unfold toJsGraph.
  change (@None (list jsNode)) with (appended (@nil jsNode)).
  change (@None (list jsEdge)) with (appended (@nil jsEdge)).
  apply fold_add_node.
Qed.

Lemma length_flat_map_edges_of (l : list gen.Type_) :
  length (flat_map edges_of l)
  = list_sum (map (fun n => length (List.filter canonical (gen.t_Edges n))) l).
Proof.
  induction l as [|n l IH]; simpl; [reflexivity|].
  rewrite length_app, IH. unfold edges_of. now rewrite length_map.
Qed.

(** ** The emitted edges *)

(** C1: the edges that [toJsGraph] emits are, node by node, one edge per
    relationship declaration that is not an inverse, and none for an inverse
    declaration; the edge of a declaration goes from the declaring entity to
    the target entity and is labelled with the relationship name; so the
    number of edges is the number of non-inverse declarations, and a
    non-inverse declaration whose target is its declaring entity gives, at the
    place of that declaration, one edge with equal ends. *)
Theorem toJsGraph_edges (g : gen.Graph) :
  elems (Edges (toJsGraph g))
  = flat_map (fun n =>
      map (fun e => {| From := gen.t_Name n;
                       To := gen.e_Type_Name e;
                       Label := gen.e_Name e |})
          (List.filter (fun e => negb (gen.e_IsInverse e)) (gen.t_Edges n)))
      (gen.g_Nodes g)
  /\ length (elems (Edges (toJsGraph g))) = canonical_count g
  /\ (forall c ns1 n ns2 es1 e es2,
        g = gen.mkGraph c (ns1 ++ n :: ns2) ->
        gen.t_Edges n = es1 ++ e :: es2 ->
        elems (Edges (toJsGraph g))
        = (flat_map edges_of ns1
             ++ map (edge_of n) (List.filter canonical es1))
          ++ (if gen.e_IsInverse e then []
              else [ {| From := gen.t_Name n;
                        To := gen.e_Type_Name e;
                        Label := gen.e_Name e |} ])
          ++ (map (edge_of n) (List.filter canonical es2)
                ++ flat_map edges_of ns2))
  /\ (forall c ns1 n ns2 es1 e es2,
        g = gen.mkGraph c (ns1 ++ n :: ns2) ->
        gen.t_Edges n = es1 ++ e :: es2 ->
        gen.e_IsInverse e = false ->
        gen.e_Type_Name e = gen.t_Name n ->
        exists pre post j,
          elems (Edges (toJsGraph g)) = pre ++ j :: post
          /\ From j = To j /\ From j = gen.t_Name n /\ Label j = gen.e_Name e
          /\ length pre
             = canonical_count (gen.mkGraph c ns1)
               + length (List.filter canonical es1)).
Proof.
  rewrite toJsGraph_eq. simpl. rewrite elems_appended.
  assert (Hpos : forall c ns1 n ns2 es1 e es2,
    g = gen.mkGraph c (ns1 ++ n :: ns2) ->
    gen.t_Edges n = es1 ++ e :: es2 ->
    flat_map edges_of (gen.g_Nodes g)
    = (flat_map edges_of ns1 ++ map (edge_of n) (List.filter canonical es1))
      ++ (if gen.e_IsInverse e then [] else [edge_of n e])
      ++ (map (edge_of n) (List.filter canonical es2)
            ++ flat_map edges_of ns2)).
  { intros c ns1 n ns2 es1 e es2 -> He. simpl.
    rewrite flat_map_app. simpl. unfold edges_of at 2. rewrite He.
    rewrite List.filter_app. simpl. unfold canonical at 2.
    destruct (gen.e_IsInverse e); simpl;
      rewrite map_app; simpl; now rewrite <- !app_assoc. }
  split; [reflexivity|]. split; [apply length_flat_map_edges_of|].
  split; [exact Hpos|].
  intros c ns1 n ns2 es1 e es2 Hg He Hinv Hself.
  rewrite (Hpos _ _ _ _ _ _ _ Hg He), Hinv. simpl.
  eexists _, _, _. split; [reflexivity|]. simpl.
  repeat split; try congruence.
  rewrite length_app, length_map. unfold canonical_count. simpl.
  now rewrite length_flat_map_edges_of.
Qed.

(** A graph with one entity related to itself, and the edge it yields. *)
Lemma toJsGraph_edges_witness :
  exists pre post j,
    elems (Edges (toJsGraph
      (gen.mkGraph (gen.mkConfig "ent")
         [gen.mkType "User" [] [gen.mkEdge "parent" "User" false]])))
    = pre ++ j :: post
    /\ From j = To j /\ From j = "User" /\ Label j = "parent"
    /\ length pre = 0.
Proof.
  destruct (toJsGraph_edges
    (gen.mkGraph (gen.mkConfig "ent")
       [gen.mkType "User" [] [gen.mkEdge "parent" "User" false]]))
    as (_ & _ & _ & H).
  exact (H (gen.mkConfig "ent") [] (gen.mkType "User" [] [gen.mkEdge "parent" "User" false])
           [] [] (gen.mkEdge "parent" "User" false) []
           eq_refl eq_refl eq_refl eq_refl).
Defined.

(** ** Strings as byte sequences *)

Lemma app_nil_r_s (s : string) : s +:+ "" = s.
Proof. induction s as [|c s IH]; [reflexivity | simpl; f_equal; exact IH]. Qed.

Lemma app_assoc_s (s t u : string) : (s +:+ t) +:+ u = s +:+ t +:+ u.
Proof. induction s as [|c s IH]; [reflexivity | simpl; f_equal; exact IH]. Qed.

Lemma length_app_s (s t : string) :
  String.length (s +:+ t) = String.length s + String.length t.
Proof. induction s as [|c s IH]; [reflexivity | simpl; f_equal; exact IH]. Qed.

Lemma take_drop_s (n : nat) (s : string) : take_bytes n s +:+ drop_bytes n s = s.
Proof.
  revert s. induction n as [|n IH]; intros [|c s]; simpl; try reflexivity.
  now rewrite IH.
Qed.

Lemma length_take_s (n : nat) (s : string) :
  n <= String.length s -> String.length (take_bytes n s) = n.
Proof.
  revert s. induction n as [|n IH]; intros [|c s]; simpl; intros H;
    try reflexivity; try lia.
  rewrite IH; [reflexivity | lia].
Qed.

Lemma length_drop_s (n : nat) (s : string) :
  String.length (drop_bytes n s) = String.length s - n.
Proof.
  revert s. induction n as [|n IH]; intros [|c s]; simpl; try reflexivity.
  apply IH.
Qed.

Lemma take_app_s (s t : string) : take_bytes (String.length s) (s +:+ t) = s.
Proof. induction s as [|c s IH]; simpl; [now destruct t | now rewrite IH]. Qed.

Lemma drop_app_s (s t : string) : drop_bytes (String.length s) (s +:+ t) = t.
Proof. induction s as [|c s IH]; simpl; [reflexivity | exact IH]. Qed.


Lemma all_bytes_take (p : N -> bool) (n : nat) (s : string) :
  all_bytes p s = true -> all_bytes p (take_bytes n s) = true.
Proof.
  revert s. induction n as [|n IH]; intros [|c s]; simpl; try reflexivity.
  intros [H1 H2]%andb_true_iff. now rewrite H1, IH.
Qed.

Lemma all_bytes_drop (p : N -> bool) (n : nat) (s : string) :
  all_bytes p s = true -> all_bytes p (drop_bytes n s) = true.
Proof.
  revert s. induction n as [|n IH]; intros [|c s]; simpl; try reflexivity;
    try (intros H; exact H).
  intros [H1 H2]%andb_true_iff. now apply IH.
Qed.


(** A property of all bytes, by enumeration. *)
Lemma forall_ascii (P : ascii -> Prop) :
  (forall b0 b1 b2 b3 b4 b5 b6 b7, P (Ascii b0 b1 b2 b3 b4 b5 b6 b7)) ->
  forall c, P c.
Proof. intros H [b0 b1 b2 b3 b4 b5 b6 b7]. apply H. Qed.

Ltac each_byte c :=
  revert c;
  match goal with
  | |- forall c, @?P c => apply (forall_ascii P)
  end;
  intros [] [] [] [] [] [] [] [].

(** Concatenations, brought to one shape. *)
Ltac norm_app :=
  repeat (progress (simpl; rewrite ?app_assoc_s)).

(** ** The layout of the payload *)

Lemma Marshal_jsField_eq (f : jsField) :
  Marshal_jsField f
  = js "{'name':" +:+ json.appendString (Name f)
    +:+ js ",'type':" +:+ json.appendString (Type_ f)
    +:+ js ",'comment':" +:+ json.appendString (Comment f) +:+ "}".
Proof.
  change (Marshal_jsField f) with (json.encode (value_of_jsField f)).
  unfold value_of_jsField, json.appendString.
  norm_app. reflexivity.
Qed.

Lemma encode_value_of_jsEdge (e : jsEdge) :
  json.encode (value_of_jsEdge e) = encode_jsEdge e.
Proof.
  unfold value_of_jsEdge, encode_jsEdge, json.appendString.
  norm_app. reflexivity.
Qed.

Lemma encode_value_of_slice {A : Type} (f : A -> json.value) (s : slice A) :
  json.encode (value_of_slice f s) = encode_slice (fun x => json.encode (f x)) s.
Proof.
  destruct s as [l|]; simpl; [|reflexivity].
  now rewrite map_map.
Qed.

Lemma encode_value_of_jsNode (n : jsNode) :
  json.encode (value_of_jsNode n) = encode_jsNode n.
Proof.
  unfold value_of_jsNode, encode_jsNode.
  change (json.encode (json.VStruct ?l)) with
    ("{" +:+ String.concat ","
       (map (fun kv => String dquote (fst kv +:+ String dquote ":")
                         +:+ json.encode (snd kv)) l) +:+ "}").
  cbn [map fst snd String.concat].
  rewrite encode_value_of_slice.
  change (fun x => json.encode (value_of_jsField x)) with Marshal_jsField.
  unfold json.appendString. norm_app. reflexivity.
Qed.

Lemma encode_slice_ext {A : Type} (f g : A -> string) (s : slice A) :
  (forall x, f x = g x) -> encode_slice f s = encode_slice g s.
Proof.
  intros H. destruct s as [l|]; simpl; [|reflexivity].
  f_equal. f_equal. f_equal. apply map_ext. exact H.
Qed.

Lemma Marshal_eq (g : jsGraph) :
  Marshal g
  = js "{'nodes':" +:+ encode_slice encode_jsNode (Nodes g)
    +:+ js ",'edges':" +:+ encode_slice encode_jsEdge (Edges g) +:+ "}".
Proof.
  change (Marshal g) with (json.encode (value_of_jsGraph g)).
  unfold value_of_jsGraph.
  change (json.encode (json.VStruct ?l)) with
    ("{" +:+ String.concat ","
       (map (fun kv => String dquote (fst kv +:+ String dquote ":")
                         +:+ json.encode (snd kv)) l) +:+ "}").
  cbn [map fst snd String.concat].
  rewrite !encode_value_of_slice.
  rewrite (encode_slice_ext _ _ _ encode_value_of_jsNode).
  rewrite (encode_slice_ext _ _ _ encode_value_of_jsEdge).
  norm_app. reflexivity.
Qed.

(** ** The tests of the repository

    [TestJsFieldComment] and [TestJsFieldEmptyComment]: the expected text
    of a field, and the comment that comes back from it. *)

Example TestJsFieldComment :
  Marshal_jsField (mkJsField "test_field" "string" "这是一个测试字段")
  = js "{'name':'test_field','type':'string','comment':'这是一个测试字段'}"
  /\ json.unquoteBytes (json.appendString "这是一个测试字段")
     = Some "这是一个测试字段".
Proof. split; vm_compute; reflexivity. Qed.

Example TestJsFieldEmptyComment :
  Marshal_jsField (mkJsField "test_field" "string" "")
  = js "{'name':'test_field','type':'string','comment':''}".
Proof. vm_compute. reflexivity. Qed.

(** ** The payload of the end-to-end scenario *)

(** C3, as stated, fails: the payload of the scenario is not the text of
    the specification, in which the entity without fields has the value [[]] under
    [fields]; the slice of that node is nil. *)
Lemma userPet_fields_not_empty_array :
  graphJSON userPet
  <> js "{'nodes':[{'id':'User','fields':[{'name':'name','type':'string','comment':'用户姓名'}]},{'id':'Pet','fields':[]}],'edges':[{'from':'User','to':'Pet','label':'pets'}]}"
  /\ Nodes (toJsGraph userPet)
     = Some [ mkJsNode "User" (Some [mkJsField "name" "string" "用户姓名"]);
              mkJsNode "Pet" None ].
Proof.
  split; [|reflexivity].
  vm_compute. discriminate.
Qed.

(** C3, amended: the payload of the scenario has the nodes [User], with its
    one field and the comment as it is, and [Pet], and the one edge from
    [User] to [Pet] labelled [pets]; the entity without fields has [null]
    under [fields]. *)
Theorem userPet_payload :
  graphJSON userPet
  = js "{'nodes':[{'id':'User','fields':[{'name':'name','type':'string','comment':'用户姓名'}]},{'id':'Pet','fields':null}],'edges':[{'from':'User','to':'Pet','label':'pets'}]}".
Proof. vm_compute. reflexivity. Qed.

(** ** Order of nodes, fields and edges *)

(** C5: the nodes of the reduced graph are those of the input in its
    order, the fields of each node are the fields of the entity in their
    order, the edges are those of the first entity in the order of its
    declarations, then those of the second, and so on; the payload is the
    encoding of these sequences, so graphs with the same sequence of entities
    have the same payload, byte for byte. *)
Theorem reduction_order (g : gen.Graph) :
  elems (Nodes (toJsGraph g))
  = map (fun n => {| ID := gen.t_Name n;
                     Fields := appended (map field_of (gen.t_Fields n)) |})
        (gen.g_Nodes g)
  /\ (forall n, elems (appended (map field_of (gen.t_Fields n)))
                = map (fun f => {| Name := gen.f_Name f;
                                   Type_ := gen.f_Type_String f;
                                   Comment := gen.f_Comment f |})
                      (gen.t_Fields n))
  /\ elems (Edges (toJsGraph g))
     = flat_map (fun n => map (edge_of n) (List.filter canonical (gen.t_Edges n)))
                (gen.g_Nodes g)
  /\ graphJSON g
     = js "{'nodes':"
       +:+ encode_slice encode_jsNode (appended (map node_of (gen.g_Nodes g)))
       +:+ js ",'edges':"
       +:+ encode_slice encode_jsEdge (appended (flat_map edges_of (gen.g_Nodes g)))
       +:+ "}"
  /\ (forall g', gen.g_Nodes g' = gen.g_Nodes g -> graphJSON g' = graphJSON g).
Proof.
  unfold graphJSON. rewrite toJsGraph_eq. simpl. rewrite !elems_appended.
  repeat split.
  - intros n. apply elems_appended.
  - rewrite Marshal_eq. reflexivity.
  - intros g' H. rewrite toJsGraph_eq, H. reflexivity.
Qed.

(** Two graphs with the same entities and different target directories. *)
Lemma reduction_order_witness :
  graphJSON (gen.mkGraph (gen.mkConfig "elsewhere") (gen.g_Nodes userPet))
  = graphJSON userPet.
Proof.
  destruct (reduction_order userPet) as (_ & _ & _ & _ & H).
  apply H. reflexivity.
Defined.

(** ** Keys *)

(** C6: in the payload the key [nodes] comes before [edges]; in a node
    [id] before [fields]; in a field [name], [type], [comment]; in an edge
    [from], [to], [label]; every key is written whatever the value, and an
    empty comment is written as an empty string literal under its key. *)
Theorem payload_key_order :
  (forall g : jsGraph,
      Marshal g
      = js "{'nodes':"
        +:+ encode_slice (fun n => json.encode (value_of_jsNode n)) (Nodes g)
        +:+ js ",'edges':"
        +:+ encode_slice (fun e => json.encode (value_of_jsEdge e)) (Edges g)
        +:+ "}")
  /\ (forall n : jsNode,
         json.encode (value_of_jsNode n)
         = js "{'id':" +:+ json.appendString (ID n)
           +:+ js ",'fields':" +:+ encode_slice Marshal_jsField (Fields n)
           +:+ "}")
  /\ (forall f : jsField,
         Marshal_jsField f
         = js "{'name':" +:+ json.appendString (Name f)
           +:+ js ",'type':" +:+ json.appendString (Type_ f)
           +:+ js ",'comment':" +:+ json.appendString (Comment f) +:+ "}")
  /\ (forall e : jsEdge,
         json.encode (value_of_jsEdge e)
         = js "{'from':" +:+ json.appendString (From e)
           +:+ js ",'to':" +:+ json.appendString (To e)
           +:+ js ",'label':" +:+ json.appendString (Label e) +:+ "}")
  /\ (forall name type : string,
         Marshal_jsField (mkJsField name type "")
         = js "{'name':" +:+ json.appendString name
           +:+ js ",'type':" +:+ json.appendString type
           +:+ js ",'comment':''}").
Proof.
  split; [|split; [|split; [|split]]].
  - intros g. rewrite Marshal_eq.
    rewrite (encode_slice_ext _ _ _ encode_value_of_jsNode).
    rewrite (encode_slice_ext _ _ _ encode_value_of_jsEdge).
    reflexivity.
  - exact encode_value_of_jsNode.
  - exact Marshal_jsField_eq.
  - exact encode_value_of_jsEdge.
  - intros name type. rewrite Marshal_jsField_eq. reflexivity.
Qed.

(** ** Empty collections *)

Lemma flat_map_edges_of_nil (l : list gen.Type_) :
  (forall n e, In n l -> In e (gen.t_Edges n) -> gen.e_IsInverse e = true) ->
  flat_map edges_of l = [].
Proof.
  induction l as [|n l IH]; intros H; simpl; [reflexivity|].
  rewrite IH by (intros n' e Hn He; apply (H n' e); [now right | exact He]).
  rewrite app_nil_r. unfold edges_of.
  assert (Hn : forall e, In e (gen.t_Edges n) -> gen.e_IsInverse e = true)
    by (intros e He; apply (H n e); [now left | exact He]).
  induction (gen.t_Edges n) as [|e es IHes]; simpl; [reflexivity|].
  unfold canonical at 1. rewrite (Hn e) by now left. simpl.
  apply IHes. intros e' He'. apply Hn. now right.
Qed.

(** C10: a graph without entity types reduces to a graph whose two slices
    are nil and has the payload [{"nodes":null,"edges":null}]; a graph none of whose relationship
    declarations is a non-inverse one has a nil slice of edges and a payload
    that ends with [,"edges":null}]; an entity without fields gives a node
    with [null] under [fields]. *)
Theorem empty_collections_null :
  (forall c,
      toJsGraph (gen.mkGraph c []) = {| Nodes := None; Edges := None |}
      /\ graphJSON (gen.mkGraph c []) = js "{'nodes':null,'edges':null}")
  /\ (forall g,
         (forall n e, In n (gen.g_Nodes g) -> In e (gen.t_Edges n) ->
                      gen.e_IsInverse e = true) ->
         Edges (toJsGraph g) = None
         /\ graphJSON g
            = js "{'nodes':"
              +:+ encode_slice (fun n => json.encode (value_of_jsNode n))
                               (Nodes (toJsGraph g))
              +:+ js ",'edges':null}")
  /\ (forall name es,
         json.encode (value_of_jsNode (node_of (gen.mkType name [] es)))
         = js "{'id':" +:+ json.appendString name +:+ js ",'fields':null}").
Proof.
  split; [|split].
  - intros c. split; reflexivity.
  - intros g H. unfold graphJSON. rewrite Marshal_eq, toJsGraph_eq. simpl.
    rewrite (flat_map_edges_of_nil _ H). split; [reflexivity|].
    rewrite (encode_slice_ext _ _ _ encode_value_of_jsNode). reflexivity.
  - intros name es. rewrite encode_value_of_jsNode. reflexivity.
Qed.

(** A graph whose only relationship declaration is an inverse one. *)
Lemma empty_collections_null_witness :
  Edges (toJsGraph
    (gen.mkGraph (gen.mkConfig "ent")
       [gen.mkType "Pet" [] [gen.mkEdge "owner" "User" true]])) = None
  /\ graphJSON
       (gen.mkGraph (gen.mkConfig "ent")
          [gen.mkType "Pet" [] [gen.mkEdge "owner" "User" true]])
     = js "{'nodes':[{'id':'Pet','fields':null}],'edges':null}".
Proof.
  destruct empty_collections_null as (_ & H & _).
  destruct (H (gen.mkGraph (gen.mkConfig "ent")
                 [gen.mkType "Pet" [] [gen.mkEdge "owner" "User" true]]))
    as [H1 H2].
  - simpl. intros n e [<-|[]] [<-|[]]. reflexivity.
  - split; [exact H1|]. rewrite H2. reflexivity.
Defined.

(** ** The decoder and the encoder of UTF-8 *)

Section Utf8.

Local Open Scope N_scope.

Lemma land_shiftl_small (x k b : N) : b < 2 ^ k -> N.land (x * 2 ^ k) b = 0.
Proof.
  intros Hb. apply N.bits_inj. intros n.
  rewrite N.land_spec, N.bits_0, <- N.shiftl_mul_pow2.
  destruct (N.lt_ge_cases n k) as [Hn|Hn].
  - now rewrite N.shiftl_spec_low.
  - rewrite andb_comm. 
    destruct (N.eq_dec b 0) as [->|Hb0]; [now rewrite N.bits_0|].
    rewrite N.bits_above_log2; [reflexivity|].
    apply N.lt_le_trans with k; [|exact Hn].
    apply N.log2_lt_pow2; lia.
Qed.

Lemma lor_add (k a b : N) : a mod 2 ^ k = 0 -> b < 2 ^ k -> N.lor a b = a + b.
Proof.
  intros Ha Hb.
  assert (H2 : 2 ^ k <> 0) by (apply N.pow_nonzero; lia).
  assert (Hl : N.land a b = 0).
  { rewrite (N.div_mod a (2 ^ k)) by exact H2. rewrite Ha, N.add_0_r.
    rewrite N.mul_comm. now apply land_shiftl_small. }
  now rewrite <- N.lxor_lor, <- N.add_nocarry_lxor.
Qed.

Lemma dec2_arith (b0 b1 : N) :
  N.lor (N.shiftl (N.land b0 utf8.mask2) 6) (N.land b1 utf8.maskx)
  = (b0 mod 32) * 64 + b1 mod 64.
Proof.
  change utf8.mask2 with (N.ones 5). change utf8.maskx with (N.ones 6).
  rewrite !N.land_ones, N.shiftl_mul_pow2.
  rewrite (lor_add 6); change (2^6) with 64; change (2^5) with 32; lia.
Qed.

Lemma dec3_arith (b0 b1 b2 : N) :
  N.lor (N.lor (N.shiftl (N.land b0 utf8.mask3) 12)
               (N.shiftl (N.land b1 utf8.maskx) 6))
        (N.land b2 utf8.maskx)
  = (b0 mod 16) * 4096 + (b1 mod 64) * 64 + b2 mod 64.
Proof.
  change utf8.mask3 with (N.ones 4). change utf8.maskx with (N.ones 6).
  rewrite !N.land_ones, !N.shiftl_mul_pow2.
  change (2^6) with 64; change (2^4) with 16; change (2^12) with 4096.
  rewrite (lor_add 12 (_ * 4096) (_ * 64)); change (2^12) with 4096; try lia.
  rewrite (lor_add 6); change (2^6) with 64; lia.
Qed.

Lemma dec4_arith (b0 b1 b2 b3 : N) :
  N.lor (N.lor (N.lor (N.shiftl (N.land b0 utf8.mask4) 18)
                      (N.shiftl (N.land b1 utf8.maskx) 12))
               (N.shiftl (N.land b2 utf8.maskx) 6))
        (N.land b3 utf8.maskx)
  = (b0 mod 8) * 262144 + (b1 mod 64) * 4096 + (b2 mod 64) * 64 + b3 mod 64.
Proof.
  change utf8.mask4 with (N.ones 3). change utf8.maskx with (N.ones 6).
  rewrite !N.land_ones, !N.shiftl_mul_pow2.
  change (2^6) with 64; change (2^3) with 8; change (2^12) with 4096;
    change (2^18) with 262144.
  rewrite (lor_add 18 (_ * 262144) (_ * 4096)); change (2^18) with 262144; try lia.
  rewrite (lor_add 12 (_ + _) (_ * 64)); change (2^12) with 4096; try lia.
  rewrite (lor_add 6); change (2^6) with 64; lia.
Qed.

Lemma byte_N_of_ascii (c : ascii) : byte (N_of_ascii c) = c.
Proof. apply ascii_N_embedding. Qed.

(** Encoder, in arithmetic *)
Lemma enc_lor_low8 (k t v : N) :
  t mod 2 ^ k = 0 -> v < 2 ^ k -> k <= 8 -> N.lor t (utf8.low8 v) = t + v.
Proof.
  intros Ht Hv Hk. unfold utf8.low8. change 0xFF with (N.ones 8).
  rewrite N.land_ones.
  assert (2 ^ k <= 2 ^ 8) by (apply N.pow_le_mono_r; lia).
  rewrite N.mod_small by lia. now apply (lor_add k).
Qed.

Lemma enc_lor_cont (v : N) :
  N.lor utf8.tx (N.land (utf8.low8 v) utf8.maskx) = 0x80 + v mod 64.
Proof.
  unfold utf8.low8, utf8.tx. change 0xFF with (N.ones 8).
  change utf8.maskx with (N.ones 6). rewrite !N.land_ones.
  change (2 ^ 8) with 256. change (2 ^ 6) with 64.
  rewrite (lor_add 6); change (2 ^ 6) with 64; lia.
Qed.

Lemma EncodeRune2 (r : N) :
  0x80 <= r <= 0x7FF ->
  utf8.EncodeRune r
  = String (byte (0xC0 + r / 64)) (String (byte (0x80 + r mod 64)) "").
Proof.
  intros H. unfold utf8.EncodeRune.
  destruct (N.leb_spec r utf8.rune1Max) as [H1|H1];
    [unfold utf8.rune1Max in H1; lia|].
  destruct (N.leb_spec r utf8.rune2Max) as [H2|H2];
    [|unfold utf8.rune2Max in H2; lia].
  rewrite enc_lor_cont, N.shiftr_div_pow2. change (2 ^ 6) with 64.
  rewrite (enc_lor_low8 6); change (2 ^ 6) with 64; try reflexivity; try lia.
Qed.

Lemma EncodeRune3 (r : N) :
  0x800 <= r <= 0xFFFF -> r < 0xD800 \/ 0xDFFF < r ->
  utf8.EncodeRune r
  = String (byte (0xE0 + r / 4096))
      (String (byte (0x80 + (r / 64) mod 64))
         (String (byte (0x80 + r mod 64)) "")).
Proof.
  intros H Hs. unfold utf8.EncodeRune.
  destruct (N.leb_spec r utf8.rune1Max) as [H1|H1];
    [unfold utf8.rune1Max in H1; lia|].
  destruct (N.leb_spec r utf8.rune2Max) as [H2|H2];
    [unfold utf8.rune2Max in H2; lia|].
  assert (Hb : (r <? utf8.surrogateMin)
               || ((utf8.surrogateMax <? r) && (r <=? utf8.rune3Max)) = true).
  { unfold utf8.surrogateMin, utf8.surrogateMax, utf8.rune3Max.
    destruct Hs as [Hs|Hs].
    - apply orb_true_iff. left. apply N.ltb_lt. exact Hs.
    - apply orb_true_iff. right. apply andb_true_iff. split.
      + apply N.ltb_lt. exact Hs.
      + apply N.leb_le. lia. }
  rewrite Hb. rewrite !enc_lor_cont, !N.shiftr_div_pow2.
  change (2 ^ 6) with 64. change (2 ^ 12) with 4096.
  rewrite (enc_lor_low8 5); change (2 ^ 5) with 32; try reflexivity; try lia.
Qed.

Lemma EncodeRune4 (r : N) :
  0x10000 <= r <= 0x10FFFF ->
  utf8.EncodeRune r
  = String (byte (0xF0 + r / 262144))
      (String (byte (0x80 + (r / 4096) mod 64))
         (String (byte (0x80 + (r / 64) mod 64))
            (String (byte (0x80 + r mod 64)) ""))).
Proof.
  intros H. unfold utf8.EncodeRune.
  destruct (N.leb_spec r utf8.rune1Max) as [H1|H1];
    [unfold utf8.rune1Max in H1; lia|].
  destruct (N.leb_spec r utf8.rune2Max) as [H2|H2];
    [unfold utf8.rune2Max in H2; lia|].
  assert (Hb : (r <? utf8.surrogateMin)
               || ((utf8.surrogateMax <? r) && (r <=? utf8.rune3Max)) = false).
  { unfold utf8.surrogateMin, utf8.surrogateMax, utf8.rune3Max.
    apply orb_false_iff. split.
    - apply N.ltb_ge. lia.
    - apply andb_false_iff. right. apply N.leb_gt. lia. }
  rewrite Hb.
  assert (Hc : (utf8.rune3Max <? r) && (r <=? utf8.MaxRune) = true).
  { unfold utf8.rune3Max, utf8.MaxRune. apply andb_true_iff. split.
    - apply N.ltb_lt. lia.
    - apply N.leb_le. lia. }
  rewrite Hc. rewrite !enc_lor_cont, !N.shiftr_div_pow2.
  change (2 ^ 6) with 64. change (2 ^ 12) with 4096. change (2 ^ 18) with 262144.
  rewrite (enc_lor_low8 4); change (2 ^ 4) with 16; try reflexivity; try lia.
Qed.

(** Decoder, by classes of the first byte *)
Lemma first_spec (b : N) :
  b < 256 ->
  (b < 0x80 /\ utf8.first b = utf8.as_)
  \/ ((0x80 <= b < 0xC2 \/ 0xF4 < b) /\ utf8.first b = utf8.xx)
  \/ (0xC2 <= b < 0xE0 /\ utf8.first b = utf8.s1)
  \/ (b = 0xE0 /\ utf8.first b = utf8.s2)
  \/ ((0xE1 <= b < 0xED \/ 0xEE <= b < 0xF0) /\ utf8.first b = utf8.s3)
  \/ (b = 0xED /\ utf8.first b = utf8.s4)
  \/ (b = 0xF0 /\ utf8.first b = utf8.s5)
  \/ (0xF1 <= b < 0xF4 /\ utf8.first b = utf8.s6)
  \/ (b = 0xF4 /\ utf8.first b = utf8.s7).
Proof.
  intros Hb. unfold utf8.first.
  repeat match goal with
         | |- context [N.ltb ?x ?y] => destruct (N.ltb_spec x y)
         | |- context [N.eqb ?x ?y] => destruct (N.eqb_spec x y)
         end;
    try (left; split; [lia | reflexivity]);
    repeat (right; try (left; split; [lia | reflexivity]);
            try (split; [lia | reflexivity])).
Qed.

Ltac decode_step :=
  match goal with
  | |- context [N.ltb ?x ?y] => destruct (N.ltb_spec x y)
  | |- context [N.leb ?x ?y] => destruct (N.leb_spec x y)
  end.

Lemma decode2_eq (c0 c1 : ascii) (rest : string) :
  0xC2 <= N_of_ascii c0 <= 0xDF -> cont (N_of_ascii c1) ->
  utf8.DecodeRuneInString (String c0 (String c1 rest))
  = ((N_of_ascii c0 mod 32) * 64 + N_of_ascii c1 mod 64, 2%nat).
Proof.
  intros H0 H1. unfold cont in H1. unfold utf8.DecodeRuneInString.
  destruct (first_spec (N_of_ascii c0) (N_ascii_bounded c0))
    as [[? E]|[[? E]|[[? E]|[[? E]|[[? E]|[[? E]|[[? E]|[[? E]|[? E]]]]]]]]];
    try lia.
  rewrite E. simpl.
  unfold utf8.locb, utf8.hicb.
  repeat decode_step; simpl; try lia.
  now rewrite dec2_arith.
Qed.

Ltac first_cases c0 :=
  destruct (first_spec (N_of_ascii c0) (N_ascii_bounded c0))
    as [[? ?E]|[[? ?E]|[[? ?E]|[[? ?E]|[[? ?E]|[[? ?E]|[[? ?E]|[[? ?E]|[? ?E]]]]]]]]].

Lemma decode3_eq (c0 c1 c2 : ascii) (rest : string) :
  0xE0 <= N_of_ascii c0 <= 0xEF ->
  lo3 (N_of_ascii c0) <= N_of_ascii c1 <= hi3 (N_of_ascii c0) ->
  cont (N_of_ascii c2) ->
  utf8.DecodeRuneInString (String c0 (String c1 (String c2 rest)))
  = ((N_of_ascii c0 mod 16) * 4096 + (N_of_ascii c1 mod 64) * 64
     + N_of_ascii c2 mod 64, 3%nat).
Proof.
  intros H0 H1 H2. unfold cont in H2. unfold lo3, hi3 in H1.
  unfold utf8.DecodeRuneInString.
  first_cases c0; try lia; rewrite E; simpl;
    unfold utf8.locb, utf8.hicb;
    repeat match goal with
           | H : context [N.eqb ?x ?y] |- _ => destruct (N.eqb_spec x y)
           end; try lia;
    repeat decode_step; simpl; try lia;
    now rewrite dec3_arith.
Qed.

Lemma decode4_eq (c0 c1 c2 c3 : ascii) (rest : string) :
  0xF0 <= N_of_ascii c0 <= 0xF4 ->
  lo4 (N_of_ascii c0) <= N_of_ascii c1 <= hi4 (N_of_ascii c0) ->
  cont (N_of_ascii c2) -> cont (N_of_ascii c3) ->
  utf8.DecodeRuneInString (String c0 (String c1 (String c2 (String c3 rest))))
  = ((N_of_ascii c0 mod 8) * 262144 + (N_of_ascii c1 mod 64) * 4096
     + (N_of_ascii c2 mod 64) * 64 + N_of_ascii c3 mod 64, 4%nat).
Proof.
  intros H0 H1 H2 H3. unfold cont in H2, H3. unfold lo4, hi4 in H1.
  unfold utf8.DecodeRuneInString.
  first_cases c0; try lia; rewrite E; simpl;
    unfold utf8.locb, utf8.hicb;
    repeat match goal with
           | H : context [N.eqb ?x ?y] |- _ => destruct (N.eqb_spec x y)
           end; try lia;
    repeat decode_step; simpl; try lia;
    now rewrite dec4_arith.
Qed.

Ltac range_solve :=
  unfold cont, lo3, hi3, lo4, hi4 in *;
  repeat match goal with
         | |- context [N.eqb ?x ?y] => destruct (N.eqb_spec x y)
         | H : context [N.eqb ?x ?y] |- _ => destruct (N.eqb_spec x y)
         end;
  try lia.

Lemma decode_cases (c0 : ascii) (r0 : string) :
  0x80 <= N_of_ascii c0 ->
  utf8.DecodeRuneInString (String c0 r0) = (utf8.RuneError, 1%nat)
  \/ exists size, sequence (String c0 r0) size
                  /\ snd (utf8.DecodeRuneInString (String c0 r0)) = size.
Proof.
  intros H0. unfold utf8.DecodeRuneInString.
  first_cases c0; try lia; rewrite E;
    destruct r0 as [|c1 [|c2 [|c3 r3]]]; simpl;
    unfold utf8.locb, utf8.hicb;
    repeat decode_step; simpl;
    try (left; reflexivity);
    right; eexists; (split; [|reflexivity]);
    constructor; range_solve.
Qed.

Lemma decode_take4 (s : string) :
  utf8.DecodeRuneInString (take_bytes utf8.UTFMax s) = utf8.DecodeRuneInString s.
Proof.
  destruct s as [|c0 [|c1 [|c2 [|c3 r3]]]]; try reflexivity.
  unfold utf8.UTFMax, utf8.DecodeRuneInString. 
  cbn [take_bytes].
  first_cases c0; rewrite E; reflexivity.
Qed.

Lemma byte_eq (n : N) (c : ascii) : n = N_of_ascii c -> byte n = c.
Proof. intros ->. apply byte_N_of_ascii. Qed.

Ltac bytes_eq :=
  repeat match goal with
         | |- String _ _ = String _ _ => f_equal
         end;
  try apply byte_eq; range_solve.

Lemma sequence_spec (s : string) (size : nat) :
  sequence s size ->
  exists bs rest r,
    s = bs +:+ rest
    /\ String.length bs = size
    /\ (2 <= size <= 4)%nat
    /\ all_bytes (fun b => 0x80 <=? b) bs = true
    /\ (forall t, utf8.DecodeRuneInString (bs +:+ t) = (r, size))
    /\ utf8.EncodeRune r = bs
    /\ 0x80 <= r <= utf8.MaxRune.
Proof.
  intros H. destruct H as [c0 c1 rest H0 H1|c0 c1 c2 rest H0 H1 H2
                          |c0 c1 c2 c3 rest H0 H1 H2 H3].
  - exists (String c0 (String c1 "")), rest,
      ((N_of_ascii c0 mod 32) * 64 + N_of_ascii c1 mod 64).
    split; [reflexivity|]. split; [reflexivity|]. split; [lia|].
    split; [|split; [|split]].
    + unfold cont in H1. simpl. rewrite !andb_true_iff, !N.leb_le. lia.
    + intros t. simpl. now apply decode2_eq.
    + unfold cont in H1. rewrite EncodeRune2 by lia.
      bytes_eq.
    + unfold utf8.MaxRune, cont in *. lia.
  - exists (String c0 (String c1 (String c2 ""))), rest,
      ((N_of_ascii c0 mod 16) * 4096 + (N_of_ascii c1 mod 64) * 64
       + N_of_ascii c2 mod 64).
    split; [reflexivity|]. split; [reflexivity|]. split; [lia|].
    split; [|split; [|split]].
    + simpl. rewrite !andb_true_iff, !N.leb_le. range_solve.
    + intros t. simpl. now apply decode3_eq.
    + rewrite EncodeRune3 by range_solve.
      bytes_eq.
    + unfold utf8.MaxRune. range_solve.
  - exists (String c0 (String c1 (String c2 (String c3 "")))), rest,
      ((N_of_ascii c0 mod 8) * 262144 + (N_of_ascii c1 mod 64) * 4096
       + (N_of_ascii c2 mod 64) * 64 + N_of_ascii c3 mod 64).
    split; [reflexivity|]. split; [reflexivity|]. split; [lia|].
    split; [|split; [|split]].
    + simpl. rewrite !andb_true_iff, !N.leb_le. range_solve.
    + intros t. simpl. now apply decode4_eq.
    + rewrite EncodeRune4 by range_solve.
      bytes_eq.
    + unfold utf8.MaxRune. range_solve.
Qed.

Lemma decode_ascii (c : ascii) (rest : string) :
  N_of_ascii c < 0x80 ->
  utf8.DecodeRuneInString (String c rest) = (N_of_ascii c, 1%nat).
Proof.
  intros H. unfold utf8.DecodeRuneInString.
  first_cases c; try lia. rewrite E. reflexivity.
Qed.

Lemma decode_size_pos (c : ascii) (rest : string) :
  (1 <= snd (utf8.DecodeRuneInString (String c rest)) <= 4)%nat.
Proof.
  destruct (N.lt_ge_cases (N_of_ascii c) 0x80) as [H|H].
  - rewrite decode_ascii by exact H. simpl. lia.
  - destruct (decode_cases c rest H) as [E|(size & Hs & E)].
    + rewrite E. simpl. lia.
    + rewrite E. destruct (sequence_spec _ _ Hs) as (_ & _ & _ & _ & _ & ? & _).
      lia.
Qed.

End Utf8.

(** ** The loop of [appendString], step by step *)

Section Escaping.

Local Open Scope N_scope.

Lemma loop_ascii (n : nat) (c : ascii) (rest : string) :
  N_of_ascii c < 0x80 ->
  json.appendString_loop (S n) (String c rest)
  = (if json.htmlSafeSet (N_of_ascii c) then String c ""
     else json.escape_byte (N_of_ascii c))
    +:+ json.appendString_loop n rest.
Proof.
  intros H. cbn [json.appendString_loop]. unfold utf8.RuneSelf.
  destruct (N.ltb_spec (N_of_ascii c) 0x80); [reflexivity | lia].
Qed.

Lemma loop_malformed (n : nat) (c : ascii) (rest : string) :
  0x80 <= N_of_ascii c ->
  utf8.DecodeRuneInString (String c rest) = (utf8.RuneError, 1%nat) ->
  json.appendString_loop (S n) (String c rest)
  = String backslash "ufffd" +:+ json.appendString_loop n rest.
Proof.
  intros H E. cbn [json.appendString_loop]. unfold utf8.RuneSelf.
  destruct (N.ltb_spec (N_of_ascii c) 0x80); [lia|].
  rewrite decode_take4, E. reflexivity.
Qed.

Lemma loop_sequence (n : nat) (bs rest : string) (r : N) :
  (2 <= String.length bs)%nat ->
  all_bytes (fun b => 0x80 <=? b) bs = true ->
  utf8.DecodeRuneInString (bs +:+ rest) = (r, String.length bs) ->
  json.appendString_loop (S n) (bs +:+ rest)
  = (if (r =? 0x2028) || (r =? 0x2029) then sep_escape r else bs)
    +:+ json.appendString_loop n rest.
Proof.
  intros Hl Hge E.
  destruct bs as [|c0 bs']; [simpl in Hl; lia|].
  simpl in Hge. apply andb_true_iff in Hge as [H0%N.leb_le _].
  change (String c0 bs' +:+ rest) with (String c0 (bs' +:+ rest)) in *.
  cbn [json.appendString_loop]. unfold utf8.RuneSelf.
  destruct (N.ltb_spec (N_of_ascii c0) 0x80); [lia|].
  rewrite decode_take4, E.
  replace ((r =? utf8.RuneError) && (String.length (String c0 bs') =? 1)%nat)
    with false
    by (symmetry; apply andb_false_iff; right; apply Nat.eqb_neq; lia).
  change (String c0 (bs' +:+ rest)) with (String c0 bs' +:+ rest).
  rewrite take_app_s, drop_app_s.
  destruct ((r =? 0x2028) || (r =? 0x2029)); reflexivity.
Qed.

Lemma loop_cases (n : nat) (c : ascii) (rest : string) :
  (N_of_ascii c < 0x80
   /\ json.appendString_loop (S n) (String c rest)
      = (if json.htmlSafeSet (N_of_ascii c) then String c ""
         else json.escape_byte (N_of_ascii c))
        +:+ json.appendString_loop n rest)
  \/ (0x80 <= N_of_ascii c
      /\ utf8.DecodeRuneInString (String c rest) = (utf8.RuneError, 1%nat)
      /\ json.appendString_loop (S n) (String c rest)
         = String backslash "ufffd" +:+ json.appendString_loop n rest)
  \/ (exists bs rest' r,
         String c rest = bs +:+ rest'
         /\ (2 <= String.length bs <= 4)%nat
         /\ all_bytes (fun b => 0x80 <=? b) bs = true
         /\ (forall t, utf8.DecodeRuneInString (bs +:+ t) = (r, String.length bs))
         /\ utf8.EncodeRune r = bs
         /\ 0x80 <= r <= utf8.MaxRune
         /\ json.appendString_loop (S n) (String c rest)
            = (if (r =? 0x2028) || (r =? 0x2029) then sep_escape r else bs)
              +:+ json.appendString_loop n rest').
Proof.
  destruct (N.lt_ge_cases (N_of_ascii c) 0x80) as [H|H].
  - left. split; [exact H|]. now apply loop_ascii.
  - right. destruct (decode_cases c rest H) as [E|(size & Hs & _)].
    + left. split; [exact H|]. split; [exact E|]. now apply loop_malformed.
    + right. destruct (sequence_spec _ _ Hs)
        as (bs & rest' & r & Heq & Hl & Hsz & Hge & Hdec & Henc & Hr).
      exists bs, rest', r. subst size.
      repeat (split; [assumption|]).
      rewrite Heq. apply loop_sequence; [lia | exact Hge | apply Hdec].
Qed.

(** *** No byte of the payload is significant in HTML *)





Lemma sep_cases (r : N) :
  (r =? 0x2028) || (r =? 0x2029) = true -> r = 0x2028 \/ r = 0x2029.
Proof.
  intros [H|H]%orb_true_iff; apply N.eqb_eq in H; auto.
Qed.








(** *** A string literal ends where the encoder closes it *)

Lemma after_literal_ge80 (bs t : string) :
  all_bytes (fun b => 0x80 <=? b) bs = true ->
  after_literal (bs +:+ t) = after_literal t.
Proof.
  induction bs as [|c bs IH]; [reflexivity|]. simpl.
  intros [H1%N.leb_le H2]%andb_true_iff.
  destruct (N.eqb_spec (N_of_ascii c) 0x22); [lia|].
  destruct (N.eqb_spec (N_of_ascii c) 0x5C); [lia|].
  now apply IH.
Qed.

Lemma after_literal_safe (c : ascii) (t : string) :
  json.htmlSafeSet (N_of_ascii c) = true ->
  after_literal (String c t) = after_literal t.
Proof.
  simpl. unfold json.htmlSafeSet.
  repeat match goal with
         | |- context [N.eqb ?x ?y] => destruct (N.eqb_spec x y)
         end; simpl; try reflexivity; rewrite ?andb_false_r; try discriminate; lia.
Qed.

Lemma after_literal_escape_byte (c : ascii) (t : string) :
  after_literal (json.escape_byte (N_of_ascii c) +:+ t) = after_literal t.
Proof. each_byte c; reflexivity. Qed.

Lemma after_literal_escaped (n : nat) (src t : string) :
  after_literal (json.appendString_loop n src +:+ t) = after_literal t.
Proof.
  revert src. induction n as [|n IH]; intros src; [reflexivity|].
  destruct src as [|c rest]; [reflexivity|].
  destruct (loop_cases n c rest)
    as [[H E]|[(H & _ & E)|(bs & rest' & r & _ & _ & Hge & _ & _ & _ & E)]];
    rewrite E, app_assoc_s.
  - destruct (json.htmlSafeSet (N_of_ascii c)) eqn:Hs.
    + simpl. rewrite <- (IH rest). now apply after_literal_safe.
    + now rewrite after_literal_escape_byte.
  - simpl. apply IH.
  - destruct ((r =? 0x2028) || (r =? 0x2029)) eqn:Hsep.
    + destruct (sep_cases r Hsep) as [-> | ->]; simpl; apply IH.
    + now rewrite after_literal_ge80.
Qed.

Lemma after_literal_appendString (src t : string) :
  after_literal (json.escaped src +:+ String dquote t) = Some t.
Proof. unfold json.escaped. now rewrite after_literal_escaped. Qed.

End Escaping.

(** ** Unquoting what [appendString] wrote *)

Section Unquoting.

Local Open Scope N_scope.

Lemma unquote_loop_fuel (f1 : nat) :
  forall (f2 : nat) (s : string),
    (String.length s <= f1)%nat -> (String.length s <= f2)%nat ->
    json.unquote_loop f1 s = json.unquote_loop f2 s.
Proof.
  induction f1 as [|f1 IH]; intros f2 s H1 H2.
  - destruct s; [destruct f2; reflexivity | simpl in H1; lia].
  - destruct s as [|c rest]; [destruct f2; reflexivity|].
    destruct f2 as [|f2]; [simpl in H2; lia|].
    simpl in H1, H2.
    assert (IH' : forall X, (String.length X <= String.length rest)%nat ->
                            json.unquote_loop f1 X = json.unquote_loop f2 X)
      by (intros; apply IH; lia).
    pose proof (decode_size_pos c rest) as Hsz.
    cbn [json.unquote_loop].
    destruct (utf8.DecodeRuneInString (String c rest)) as [rr size].
    simpl in Hsz.
    destruct rest as [|c1 rest1];
      repeat match goal with
             | |- context [if ?b then _ else _] => destruct b
             | |- context [match json.getu4 ?x with _ => _ end] =>
               destruct (json.getu4 x)
             end;
      try reflexivity; f_equal; apply IH';
      rewrite ?length_drop_s; simpl; lia.
Qed.

(** The loop of [unquoteBytes] on what one step of [appendString] wrote. *)

Lemma unquote_safe (f : nat) (c : ascii) (X : string) :
  json.htmlSafeSet (N_of_ascii c) = true ->
  json.unquote_loop (S f) (String c X)
  = option_map (String c) (json.unquote_loop f X).
Proof.
  intros H. cbn [json.unquote_loop]. revert H.
  unfold json.htmlSafeSet, utf8.RuneSelf.
  repeat match goal with
         | |- context [N.eqb ?x ?y] => destruct (N.eqb_spec x y)
         | |- context [N.leb ?x ?y] => destruct (N.leb_spec x y)
         | |- context [N.ltb ?x ?y] => destruct (N.ltb_spec x y)
         end; simpl; try discriminate; try lia; reflexivity.
Qed.

Lemma unquote_escape_byte (f : nat) (c : ascii) (X : string) :
  N_of_ascii c < 0x80 ->
  json.htmlSafeSet (N_of_ascii c) = false ->
  json.unquote_loop (S f) (json.escape_byte (N_of_ascii c) +:+ X)
  = option_map (String c) (json.unquote_loop f X).
Proof.
  revert f X. each_byte c; intros f X H1 H2;
    try (vm_compute in H1; discriminate H1);
    try (vm_compute in H2; discriminate H2);
    reflexivity.
Qed.

Lemma escape_byte_length (c : ascii) :
  (2 <= String.length (json.escape_byte (N_of_ascii c)))%nat.
Proof. each_byte c; vm_compute; lia. Qed.

Lemma unquote_malformed (f : nat) (X : string) :
  json.unquote_loop (S f) (String backslash "ufffd" +:+ X)
  = option_map (String.append (utf8.EncodeRune utf8.RuneError))
               (json.unquote_loop f X).
Proof. reflexivity. Qed.

Lemma unquote_sep (f : nat) (r : N) (X : string) :
  r = 0x2028 \/ r = 0x2029 ->
  json.unquote_loop (S f) (sep_escape r +:+ X)
  = option_map (String.append (utf8.EncodeRune r)) (json.unquote_loop f X).
Proof. intros [-> | ->]; reflexivity. Qed.

Lemma unquote_copy (f : nat) (bs X : string) (r : N) :
  (2 <= String.length bs)%nat ->
  all_bytes (fun b => 0x80 <=? b) bs = true ->
  utf8.DecodeRuneInString (bs +:+ X) = (r, String.length bs) ->
  utf8.EncodeRune r = bs ->
  json.unquote_loop (S f) (bs +:+ X)
  = option_map (String.append bs) (json.unquote_loop f X).
Proof.
  intros Hl Hge Hdec Henc.
  destruct bs as [|c0 bs']; [simpl in Hl; lia|].
  simpl in Hge. apply andb_true_iff in Hge as [H0%N.leb_le _].
  change (String c0 bs' +:+ X) with (String c0 (bs' +:+ X)) in *.
  cbn [json.unquote_loop]. rewrite Hdec, Henc. unfold utf8.RuneSelf.
  repeat match goal with
         | |- context [N.eqb ?x ?y] => destruct (N.eqb_spec x y)
         | |- context [N.ltb ?x ?y] => destruct (N.ltb_spec x y)
         end; simpl; try lia.
  change (String c0 (bs' +:+ X)) with (String c0 bs' +:+ X).
  change (S (String.length bs')) with (String.length (String c0 bs')).
  now rewrite drop_app_s.
Qed.

Lemma option_map_append (a b : string) (o : option string) :
  option_map (String.append a) (option_map (String.append b) o)
  = option_map (String.append (a +:+ b)) o.
Proof. destruct o; simpl; [now rewrite app_assoc_s | reflexivity]. Qed.

(** The decoder on a well-formed string: what [valid_loop] checks. *)
Lemma valid_loop_ascii (n : nat) (c : ascii) (rest : string) :
  N_of_ascii c < 0x80 ->
  utf8.valid_loop (S n) (String c rest) = utf8.valid_loop n rest.
Proof.
  intros H. cbn [utf8.valid_loop]. rewrite decode_ascii by exact H.
  unfold utf8.RuneError.
  destruct (N.eqb_spec (N_of_ascii c) 0xFFFD); [lia|]. reflexivity.
Qed.

Lemma valid_loop_sequence (n : nat) (bs rest : string) (r : N) :
  (2 <= String.length bs)%nat ->
  utf8.DecodeRuneInString (bs +:+ rest) = (r, String.length bs) ->
  utf8.valid_loop (S n) (bs +:+ rest) = utf8.valid_loop n rest.
Proof.
  intros Hl Hdec. destruct bs as [|c0 bs']; [simpl in Hl; lia|].
  change (String c0 bs' +:+ rest) with (String c0 (bs' +:+ rest)) in *.
  cbn [utf8.valid_loop]. rewrite Hdec.
  replace ((r =? utf8.RuneError) && (String.length (String c0 bs') =? 1)%nat)
    with false
    by (symmetry; apply andb_false_iff; right; apply Nat.eqb_neq; lia).
  change (String c0 (bs' +:+ rest)) with (String c0 bs' +:+ rest).
  now rewrite drop_app_s.
Qed.

Lemma valid_loop_malformed (n : nat) (c : ascii) (rest : string) :
  utf8.DecodeRuneInString (String c rest) = (utf8.RuneError, 1%nat) ->
  utf8.valid_loop (S n) (String c rest) = false.
Proof. intros E. cbn [utf8.valid_loop]. rewrite E. reflexivity. Qed.

(** Unquoting the escaped text of a well-formed string gives the string. *)
Lemma unquote_escaped (n : nat) :
  forall (src : string) (f : nat),
    utf8.valid_loop n src = true ->
    (String.length (json.appendString_loop n src) <= f)%nat ->
    json.unquote_loop f (json.appendString_loop n src) = Some src.
Proof.
  induction n as [|n IH]; intros src f Hv Hf.
  - destruct src; [|discriminate Hv]. destruct f; reflexivity.
  - destruct src as [|c rest]; [destruct f; reflexivity|].
    destruct (loop_cases n c rest)
      as [[H E]|[(H & Hd & E)
               |(bs & rest' & r & Heq & Hl & Hge & Hdec & Henc & Hr & E)]].
    + rewrite valid_loop_ascii in Hv by exact H.
      rewrite E in Hf |- *. rewrite length_app_s in Hf.
      destruct (json.htmlSafeSet (N_of_ascii c)) eqn:Hs.
      * destruct f as [|f]; [simpl in Hf; lia|]. simpl in Hf.
        change (String c "" +:+ ?X) with (String c X).
        rewrite unquote_safe by exact Hs.
        rewrite (IH rest f Hv) by lia. reflexivity.
      * pose proof (escape_byte_length c) as Hlen.
        destruct f as [|f]; [lia|].
        rewrite unquote_escape_byte by assumption.
        rewrite (IH rest f Hv); [reflexivity | lia].
    + now rewrite (valid_loop_malformed n c rest Hd) in Hv.
    + rewrite Heq in Hv.
      rewrite (valid_loop_sequence n bs rest' r) in Hv by (try apply Hdec; lia).
      rewrite E in Hf |- *. rewrite length_app_s in Hf. rewrite Heq.
      destruct ((r =? 0x2028) || (r =? 0x2029)) eqn:Hsep.
      * apply sep_cases in Hsep.
        destruct f as [|f]; [simpl in Hf; lia|]. simpl in Hf.
        rewrite unquote_sep by exact Hsep.
        rewrite (IH rest' f Hv) by lia. simpl. now rewrite Henc.
      * destruct f as [|f]; [lia|].
        rewrite (unquote_copy f bs _ r); try assumption; try lia; try apply Hdec.
        rewrite (IH rest' f Hv) by lia. reflexivity.
Qed.

(** The first loop of [unquoteBytes] only skips what the second would copy. *)

Lemma take_add_s (a b : nat) (s : string) :
  take_bytes (a + b) s = take_bytes a s +:+ take_bytes b (drop_bytes a s).
Proof.
  revert s. induction a as [|a IH]; intros s; simpl.
  - reflexivity.
  - destruct s as [|c s]; simpl; [now destruct b | now rewrite IH].
Qed.

Lemma drop_add_s (a b : nat) (s : string) :
  drop_bytes (a + b) s = drop_bytes b (drop_bytes a s).
Proof.
  revert s. induction a as [|a IH]; intros s; simpl.
  - reflexivity.
  - destruct s as [|c s]; simpl; [now destruct b | now rewrite IH].
Qed.

Lemma take_all_s (s : string) : take_bytes (String.length s) s = s.
Proof. induction s as [|c s IH]; simpl; [reflexivity | now rewrite IH]. Qed.

Lemma drop_all_s (s : string) : drop_bytes (String.length s) s = "".
Proof. induction s as [|c s IH]; simpl; [reflexivity | exact IH]. Qed.

Lemma option_map_nil (o : option string) :
  option_map (String.append "") o = o.
Proof. now destruct o. Qed.

Lemma unquote_ascii (f : nat) (c : ascii) (X : string) :
  (N_of_ascii c =? 0x5C) = false -> (N_of_ascii c =? 0x22) = false ->
  (N_of_ascii c <? 0x20) = false -> N_of_ascii c < utf8.RuneSelf ->
  json.unquote_loop (S f) (String c X)
  = option_map (String c) (json.unquote_loop f X).
Proof.
  intros H5C H22 H20 Hlt. cbn [json.unquote_loop].
  rewrite H5C, H22, H20. simpl.
  destruct (N.ltb_spec (N_of_ascii c) utf8.RuneSelf); [reflexivity | lia].
Qed.

Lemma unquote_clean_prefix (n : nat) :
  forall (body : string) (f : nat),
    (String.length body <= f)%nat ->
    json.unquote_loop f body
    = option_map (String.append (take_bytes (json.clean_prefix n body) body))
        (json.unquote_loop f (drop_bytes (json.clean_prefix n body) body)).
Proof.
  induction n as [|n IH]; intros body f Hf.
  - simpl. now rewrite option_map_nil.
  - destruct body as [|c rest]; [simpl; now rewrite option_map_nil|].
    destruct f as [|f]; [simpl in Hf; lia|]. simpl in Hf.
    cbn [json.clean_prefix].
    destruct ((N_of_ascii c =? 0x5C) || (N_of_ascii c =? 0x22)
              || (N_of_ascii c <? 0x20)) eqn:Hstop.
    { cbn [take_bytes drop_bytes]. now rewrite option_map_nil. }
    apply orb_false_iff in Hstop as [Hstop H20].
    apply orb_false_iff in Hstop as [H5C H22].
    destruct (N.ltb_spec (N_of_ascii c) utf8.RuneSelf) as [Hlt|Hge].
    + cbn [take_bytes drop_bytes].
      rewrite (unquote_ascii f c rest) by (rewrite ?H5C, ?H22, ?H20; auto).
      rewrite (IH rest f) by lia.
      rewrite (unquote_loop_fuel f (S f)) by (rewrite length_drop_s; lia).
      now destruct (json.unquote_loop (S f) _).
    + unfold utf8.RuneSelf in Hge.
      destruct (decode_cases c rest Hge) as [E|(size & Hs & E)].
      * rewrite E. cbn [take_bytes drop_bytes andb N.eqb Pos.eqb Nat.eqb].
        simpl. now rewrite option_map_nil.
      * destruct (sequence_spec _ _ Hs)
          as (bs & rest' & r & Heq & Hl & Hsz & Hge' & Hdec & Henc & Hr).
        rewrite Heq in *. rewrite Hdec in *. simpl in E. subst size.
        replace ((r =? utf8.RuneError) && (String.length bs =? 1)%nat)
          with false
          by (symmetry; apply andb_false_iff; right; apply Nat.eqb_neq; lia).
        rewrite take_add_s, drop_add_s, take_app_s, !drop_app_s.
        rewrite (unquote_copy f bs rest' r); try assumption; try lia;
          [|apply Hdec].
        assert (Hlen : (String.length rest' <= f)%nat).
        { apply (f_equal String.length) in Heq. rewrite length_app_s in Heq.
          simpl in Heq. lia. }
        rewrite (IH rest' f Hlen).
        rewrite (unquote_loop_fuel f (S f)) by (rewrite length_drop_s; lia).
        rewrite option_map_append. reflexivity.
Qed.

Lemma split_last_app (body : string) (c : ascii) :
  json.split_last (body +:+ String c "") = Some (body, c).
Proof.
  induction body as [|d body IH]; [reflexivity|].
  simpl. rewrite IH. destruct (body +:+ String c "") eqn:E; [|reflexivity].
  destruct body; discriminate E.
Qed.

Lemma unquoteBytes_quoted (body : string) :
  json.unquoteBytes (String dquote (body +:+ String dquote ""))
  = json.unquote_loop (String.length body) body.
Proof.
  unfold json.unquoteBytes. rewrite split_last_app.
  change (negb (N_of_ascii dquote =? 34) || negb (N_of_ascii dquote =? 34))
    with false. cbv iota.
  rewrite (unquote_clean_prefix (String.length body) body (String.length body))
    by lia.
  destruct (Nat.eqb_spec (json.clean_prefix (String.length body) body)
                         (String.length body)) as [E|E]; [|reflexivity].
  rewrite E.
  rewrite take_all_s, drop_all_s.
  destruct (String.length body); simpl; now rewrite app_nil_r_s.
Qed.

Lemma unquoteBytes_appendString (src : string) :
  utf8.well_formed src = true ->
  json.unquoteBytes (json.appendString src) = Some src.
Proof.
  intros H. unfold json.appendString. rewrite unquoteBytes_quoted.
  unfold json.escaped. apply unquote_escaped; [exact H | lia].
Qed.

(** *** The escaped text of a concatenation *)

Lemma loop_fuel (n1 : nat) :
  forall (n2 : nat) (src : string),
    (String.length src <= n1)%nat -> (String.length src <= n2)%nat ->
    json.appendString_loop n1 src = json.appendString_loop n2 src.
Proof.
  induction n1 as [|n1 IH]; intros n2 src H1 H2.
  - destruct src; [destruct n2; reflexivity | simpl in H1; lia].
  - destruct src as [|c rest]; [destruct n2; reflexivity|].
    destruct n2 as [|n2]; [simpl in H2; lia|]. simpl in H1, H2.
    destruct (loop_cases n1 c rest)
      as [[H E]|[(H & Hd & E)
               |(bs & rest' & r & Heq & Hl & Hge & Hdec & Henc & Hr & E)]];
      rewrite E.
    + rewrite loop_ascii by exact H. f_equal. apply IH; lia.
    + rewrite loop_malformed by assumption. f_equal. apply IH; lia.
    + rewrite Heq. rewrite (loop_sequence _ bs rest' r); [|lia|exact Hge|apply Hdec].
      apply (f_equal String.length) in Heq. rewrite length_app_s in Heq.
      simpl in Heq. f_equal. apply IH; lia.
Qed.

Lemma loop_app (n : nat) :
  forall (pre s : string) (m : nat),
    utf8.valid_loop n pre = true -> (String.length s <= m)%nat ->
    json.appendString_loop (n + m) (pre +:+ s)
    = json.appendString_loop n pre +:+ json.appendString_loop m s.
Proof.
  induction n as [|n IH]; intros pre s m Hv Hm.
  - destruct pre; [reflexivity | discriminate Hv].
  - destruct pre as [|c rest].
    + change ("" +:+ s) with s.
      change (json.appendString_loop (S n) "") with "".
      change ("" +:+ json.appendString_loop m s)
        with (json.appendString_loop m s).
      apply loop_fuel; lia.
    + change (S n + m)%nat with (S (n + m)).
      change (String c rest +:+ s) with (String c (rest +:+ s)).
      destruct (loop_cases n c rest)
        as [[H E]|[(H & Hd & E)
                 |(bs & rest' & r & Heq & Hl & Hge & Hdec & Henc & Hr & E)]];
        rewrite E.
      * rewrite valid_loop_ascii in Hv by exact H.
        rewrite loop_ascii by exact H. rewrite (IH rest s m Hv Hm).
        now rewrite app_assoc_s.
      * now rewrite (valid_loop_malformed n c rest Hd) in Hv.
      * rewrite Heq in Hv.
        rewrite (valid_loop_sequence n bs rest' r) in Hv
          by (try apply Hdec; lia).
        change (String c (rest +:+ s)) with (String c rest +:+ s).
        rewrite Heq, app_assoc_s.
        rewrite (loop_sequence _ bs _ r); [|lia|exact Hge|apply Hdec].
        rewrite (IH rest' s m Hv Hm). now rewrite app_assoc_s.
Qed.

Lemma escaped_app (pre s : string) :
  utf8.well_formed pre = true ->
  json.escaped (pre +:+ s) = json.escaped pre +:+ json.escaped s.
Proof.
  intros H. unfold json.escaped. rewrite length_app_s.
  now apply loop_app.
Qed.

Lemma escaped_sequence (bs rest : string) (r : N) :
  (2 <= String.length bs)%nat ->
  all_bytes (fun b => 0x80 <=? b) bs = true ->
  utf8.DecodeRuneInString (bs +:+ rest) = (r, String.length bs) ->
  json.escaped (bs +:+ rest)
  = (if (r =? 0x2028) || (r =? 0x2029) then sep_escape r else bs)
    +:+ json.escaped rest.
Proof.
  intros Hl Hge Hdec. unfold json.escaped.
  rewrite length_app_s.
  replace (String.length bs + String.length rest)%nat
    with (S (Nat.pred (String.length bs) + String.length rest)) by lia.
  rewrite (loop_sequence _ bs rest r); [|lia|exact Hge|exact Hdec].
  f_equal. apply loop_fuel; lia.
Qed.

End Unquoting.

(** ** The payload, read back as a value *)

Section Reader.

Local Open Scope N_scope.

Lemma skip_step_mono (rec1 rec2 : mode -> string -> option string) :
  (forall m s r, rec1 m s = Some r -> rec2 m s = Some r) ->
  forall m s r, skip_step rec1 m s = Some r -> skip_step rec2 m s = Some r.
Proof.
  intros Hrec m s r H. destruct m; unfold skip_step in *.
  - destruct s as [|c rest]; [discriminate H|].
    destruct (is_byte c 0x22); [exact H|].
    destruct (is_byte c 0x6E); [exact H|].
    destruct (is_byte c 0x5B).
    { destruct rest as [|c' rest']; [discriminate H|].
      destruct (is_byte c' 0x5D); [exact H|]. now apply Hrec. }
    destruct (is_byte c 0x7B); [|discriminate H].
    destruct rest as [|c' rest']; [discriminate H|].
    destruct (is_byte c' 0x7D); [exact H|]. now apply Hrec.
  - destruct (rec1 Value s) as [[|c rest]|] eqn:E; try discriminate H.
    rewrite (Hrec _ _ _ E).
    destruct (is_byte c 0x2C); [now apply Hrec|exact H].
  - destruct s as [|q rest]; [discriminate H|].
    destruct (is_byte q 0x22); [|discriminate H].
    destruct (after_literal rest) as [[|colon rest1]|]; try discriminate H.
    destruct (is_byte colon 0x3A); [|discriminate H].
    destruct (rec1 Value rest1) as [[|c rest2]|] eqn:E; try discriminate H.
    rewrite (Hrec _ _ _ E).
    destruct (is_byte c 0x2C); [now apply Hrec|exact H].
Qed.

Lemma skip_mono (f : nat) :
  forall m s r, skip f m s = Some r -> skip (S f) m s = Some r.
Proof.
  induction f as [|f IH]; intros m s r H; [discriminate H|].
  change (skip_step (skip (S f)) m s = Some r).
  change (skip_step (skip f) m s = Some r) in H.
  revert H. now apply skip_step_mono.
Qed.

Lemma skip_le (f f' : nat) (m : mode) (s r : string) :
  (f <= f')%nat -> skip f m s = Some r -> skip f' m s = Some r.
Proof.
  intros Hle H. induction Hle as [|f' Hle IH]; [exact H|].
  now apply skip_mono.
Qed.

(** Values, one after the other. *)

Lemma one_value_string (t : string) : one_value (json.appendString t).
Proof.
  exists 1%nat. intros rest. unfold json.appendString.
  change (skip 1 Value (String dquote ((json.escaped t +:+ String dquote "") +:+ rest))
          = Some rest).
  rewrite app_assoc_s. change (skip 1 Value (String dquote ?X)) with (after_literal X).
  apply after_literal_appendString.
Qed.

Lemma one_value_null : one_value "null".
Proof. exists 1%nat. intros rest. reflexivity. Qed.

(** The elements of an array after its first bracket. *)
Lemma elems_values (l : list string) :
  Forall one_value l -> l <> [] ->
  exists fuel, forall rest,
      skip fuel Elems (String.concat "," l +:+ "]" +:+ rest) = Some rest.
Proof.
  intros Hall. induction Hall as [|x l [fx Hx] Hl IH]; [congruence|]. intros _.
  destruct l as [|y l'].
  - exists (S fx). intros rest. cbn [String.concat].
    change (skip (S fx) Elems ?s) with (skip_step (skip fx) Elems s).
    unfold skip_step. rewrite Hx. reflexivity.
  - destruct IH as [fl Hfl]; [congruence|].
    exists (S (Nat.max fx fl)). intros rest.
    change (String.concat "," (x :: y :: l'))
      with (x +:+ "," +:+ String.concat "," (y :: l')).
    rewrite !app_assoc_s.
    change (skip (S (Nat.max fx fl)) Elems ?s)
      with (skip_step (skip (Nat.max fx fl)) Elems s).
    unfold skip_step.
    rewrite (skip_le fx (Nat.max fx fl) Value _ _ (Nat.le_max_l _ _) (Hx _)).
    change ("," +:+ ?X) with (String "," X). cbn [is_byte N_of_ascii N.eqb].
    change (is_byte "," 0x2C) with true. cbv iota.
    apply (skip_le fl); [apply Nat.le_max_r|]. apply Hfl.
Qed.

Lemma one_value_first (s : string) :
  one_value s ->
  exists c s', s = String c s' /\ is_byte c 0x5D = false.
Proof.
  intros [f H]. specialize (H ""). rewrite app_nil_r_s in H.
  destruct f as [|f]; [discriminate H|].
  change (skip_step (skip f) Value s = Some "") in H. unfold skip_step in H.
  destruct s as [|c s']; [discriminate H|]. exists c, s'. split; [reflexivity|].
  unfold is_byte in *.
  destruct (N.eqb_spec (N_of_ascii c) 0x5D) as [E|E]; [|reflexivity].
  rewrite E in H. discriminate H.
Qed.

Lemma one_value_slice {A : Type} (enc : A -> string) (s : slice A) :
  (forall x, one_value (enc x)) -> one_value (encode_slice enc s).
Proof.
  intros H. destruct s as [l|]; [|exact one_value_null].
  unfold encode_slice. destruct l as [|x l].
  - exists 1%nat. intros rest. reflexivity.
  - destruct (elems_values (map enc (x :: l))) as [f Hf].
    + clear -H. induction (x :: l) as [|y l' IH]; constructor; auto.
    + discriminate.
    + exists (S f). intros rest.
      destruct (one_value_first _ (H x)) as (c & s' & Hc & Hnb).
      rewrite !app_assoc_s.
      change ("[" +:+ ?X) with (String "[" X).
      change (skip (S f) Value ?s) with (skip_step (skip f) Value s).
      cbn [skip_step]. change (is_byte "[" 0x22) with false.
      change (is_byte "[" 0x6E) with false. change (is_byte "[" 0x5B) with true.
      cbv iota.
      assert (E : exists Y, String.concat "," (map enc (x :: l)) +:+ "]" +:+ rest
                            = String c Y).
      { cbn [map String.concat]. rewrite Hc.
        destruct (map enc l); simpl; eauto. }
      destruct E as [Y E]. rewrite E, Hnb, <- E. apply Hf.
Qed.

Lemma after_literal_key (k rest : string) :
  plain_key k = true ->
  after_literal (k +:+ String dquote rest) = Some rest.
Proof.
  unfold plain_key. induction k as [|c k IH]; [reflexivity|].
  simpl. intros [[H1 H2]%andb_true_iff Hk]%andb_true_iff.
  apply negb_true_iff in H1, H2. rewrite H1, H2. now apply IH.
Qed.

Lemma members_values (l : list (string * string)) :
  Forall (fun kv => plain_key (fst kv) = true /\ one_value (snd kv)) l ->
  l <> [] ->
  exists fuel, forall rest,
      skip fuel Members (String.concat "," (map member l) +:+ "}" +:+ rest)
      = Some rest.
Proof.
  intros Hall. induction Hall as [|[k v] l [Hk [fv Hv]] Hl IH]; [congruence|].
  intros _. simpl in Hk, Hv. destruct l as [|y l'].
  - exists (S fv). intros rest. cbn [map String.concat]. unfold member.
    cbn [fst snd]. rewrite !app_assoc_s.
    change (String dquote ?a +:+ ?b) with (String dquote (a +:+ b)).
    rewrite !app_assoc_s.
    change (skip (S fv) Members ?s) with (skip_step (skip fv) Members s).
    cbn [skip_step]. change (is_byte dquote 0x22) with true. cbv iota.
    change (String dquote ":" +:+ ?X) with (String dquote (String ":" X)).
    rewrite (after_literal_key k _ Hk).
    change (is_byte ":" 0x3A) with true. cbv iota. rewrite Hv. reflexivity.
  - destruct IH as [fl Hfl]; [congruence|].
    exists (S (Nat.max fv fl)). intros rest.
    change (String.concat "," (map member ((k, v) :: y :: l')))
      with (member (k, v) +:+ "," +:+ String.concat "," (map member (y :: l'))).
    unfold member at 1. cbn [fst snd]. rewrite !app_assoc_s.
    change (String dquote ?a +:+ ?b) with (String dquote (a +:+ b)).
    rewrite !app_assoc_s.
    change (skip (S (Nat.max fv fl)) Members ?s)
      with (skip_step (skip (Nat.max fv fl)) Members s).
    cbn [skip_step]. change (is_byte dquote 0x22) with true. cbv iota.
    change (String dquote ":" +:+ ?X) with (String dquote (String ":" X)).
    rewrite (after_literal_key k _ Hk).
    change (is_byte ":" 0x3A) with true. cbv iota.
    rewrite (skip_le fv (Nat.max fv fl) Value _ _ (Nat.le_max_l _ _) (Hv _)).
    change ("," +:+ ?X) with (String "," X).
    change (is_byte "," 0x2C) with true. cbv iota.
    apply (skip_le fl); [apply Nat.le_max_r|]. apply Hfl.
Qed.

Lemma one_value_object (l : list (string * string)) :
  Forall (fun kv => plain_key (fst kv) = true /\ one_value (snd kv)) l ->
  l <> [] ->
  one_value ("{" +:+ String.concat "," (map member l) +:+ "}").
Proof.
  intros Hall Hne. destruct (members_values l Hall Hne) as [f Hf].
  exists (S f). intros rest. rewrite !app_assoc_s.
  change ("{" +:+ ?X) with (String "{" X).
  change (skip (S f) Value ?s) with (skip_step (skip f) Value s).
  cbn [skip_step]. change (is_byte "{" 0x22) with false.
  change (is_byte "{" 0x6E) with false. change (is_byte "{" 0x5B) with false.
  change (is_byte "{" 0x7B) with true. cbv iota.
  destruct l as [|[k v] l]; [congruence|].
  assert (E : exists Y, String.concat "," (map member ((k, v) :: l)) +:+ "}" +:+ rest
                        = String dquote Y).
  { cbn [map String.concat].
    destruct (map member l); unfold member; eexists; reflexivity. }
  destruct E as [Y E]. rewrite E. change (is_byte dquote 0x7D) with false.
  cbv iota. rewrite <- E. apply Hf.
Qed.

(** The payload is one value. *)

Lemma one_value_jsField (f : jsField) : one_value (Marshal_jsField f).
Proof.
  apply (one_value_object
           [("name", json.appendString (Name f));
            ("type", json.appendString (Type_ f));
            ("comment", json.appendString (Comment f))]); [|discriminate].
  repeat constructor; apply one_value_string.
Qed.

Lemma one_value_jsEdge (e : jsEdge) : one_value (json.encode (value_of_jsEdge e)).
Proof.
  apply (one_value_object
           [("from", json.appendString (From e));
            ("to", json.appendString (To e));
            ("label", json.appendString (Label e))]); [|discriminate].
  repeat constructor; apply one_value_string.
Qed.

Lemma one_value_jsNode (n : jsNode) : one_value (json.encode (value_of_jsNode n)).
Proof.
  change (json.encode (value_of_jsNode n))
    with ("{" +:+ String.concat ","
            (map member
               [("id", json.appendString (ID n));
                ("fields", json.encode (value_of_slice value_of_jsField (Fields n)))])
          +:+ "}").
  apply one_value_object; [|discriminate].
  repeat constructor; try apply one_value_string.
  rewrite encode_value_of_slice. apply one_value_slice. exact one_value_jsField.
Qed.


End Reader.

(** ** Rendering *)













(** ** The payload in the page *)



(** ** Comments that are not ASCII *)

Section Comments.

Local Open Scope N_scope.

(** C7, as stated, fails: the comment that is the one character U+2028 is
    well-formed and not ASCII, and it is written as an escape with the
    number of the character, not as its bytes; and a comment with a byte that
    is not part of a well-formed sequence does not come back from the round
    trip. *)
Lemma line_separator_is_escaped :
  utf8.well_formed line_separator = true
  /\ all_bytes (fun b => 0x80 <=? b) line_separator = true
  /\ json.appendString line_separator = js "'\u2028'"
  /\ json.appendString line_separator
     <> String dquote (line_separator +:+ String dquote "")
  /\ json.unquoteBytes (json.appendString stray_byte) <> Some stray_byte.
Proof.
  repeat split; try reflexivity; vm_compute; discriminate.
Qed.

Lemma sequence_head (bs post : string) :
  sequence (bs +:+ post) (String.length bs) ->
  (2 <= String.length bs)%nat
  /\ all_bytes (fun b => 0x80 <=? b) bs = true
  /\ exists r, forall t,
       utf8.DecodeRuneInString (bs +:+ t) = (r, String.length bs).
Proof.
  intros Hs. destruct (sequence_spec _ _ Hs)
    as (bs' & rest' & r & Heq & Hl & Hsz & Hge & Hdec & _).
  assert (bs' = bs) as ->.
  { apply (f_equal (take_bytes (String.length bs))) in Heq.
    rewrite take_app_s in Heq. rewrite <- Hl in Heq.
    now rewrite take_app_s in Heq. }
  split; [lia|]. split; [exact Hge|]. exists r. exact Hdec.
Qed.

(** C7, amended: for a comment that is well-formed UTF-8, unquoting the
    literal that the encoder writes gives back the comment; and where the
    comment has a character that is not ASCII, after a well-formed text, the
    literal has the bytes of the character as they are, between the escaped
    text before and the escaped text after, unless the character is U+2028 or
    U+2029, for which it has the escape with the number of the character. *)
Theorem comment_round_trip (c : string) :
  utf8.well_formed c = true ->
  json.unquoteBytes (json.appendString c) = Some c
  /\ (forall pre bs post,
         c = pre +:+ bs +:+ post ->
         utf8.well_formed pre = true ->
         sequence (bs +:+ post) (String.length bs) ->
         let r := fst (utf8.DecodeRuneInString (bs +:+ post)) in
         json.appendString c
         = String dquote
             (json.escaped pre
              +:+ (if (r =? 0x2028) || (r =? 0x2029) then sep_escape r else bs)
              +:+ json.escaped post +:+ String dquote "")).
Proof.
  intros Hc. split; [now apply unquoteBytes_appendString|].
  intros pre bs post -> Hpre Hs r.
  destruct (sequence_head bs post Hs) as (Hl & Hge & r' & Hdec).
  unfold r. rewrite Hdec. simpl.
  unfold json.appendString. f_equal.
  rewrite (escaped_app pre _ Hpre).
  rewrite (escaped_sequence bs post r' Hl Hge (Hdec post)).
  now rewrite !app_assoc_s.
Qed.

(** The comment of the end-to-end scenario. *)
Lemma comment_round_trip_witness :
  json.unquoteBytes (json.appendString "用户姓名") = Some "用户姓名".
Proof.
  apply (comment_round_trip "用户姓名"). vm_compute. reflexivity.
Defined.

End Comments.

(** ** The hook *)

Section Hook.

Variable assets : fs.FS.
Variable viztmpl : template.Template.
Variable World : Type.
Variable WriteFile : string -> string -> World -> World * option error.
Variable Join : string -> string -> string.
Variable next : Generator World.

Abbreviation hook := (VisualizeSchema assets viztmpl World WriteFile Join next).

Lemma hook_next_fails (g : gen.Graph) (w w1 : World) (err : error) :
  next g w = (w1, Some err) -> hook g w = (w1, Some err).
Proof. intros E. unfold VisualizeSchema. now rewrite E. Qed.

Lemma hook_render_fails (g : gen.Graph) (w w1 : World) (b : bytes) (err : error) :
  next g w = (w1, None) ->
  generateHTML assets viztmpl g = (b, Some err) ->
  hook g w = (w1, Some err).
Proof. intros E1 E2. unfold VisualizeSchema. now rewrite E1, E2. Qed.

Lemma hook_writes (g : gen.Graph) (w w1 : World) (b : bytes) :
  next g w = (w1, None) ->
  generateHTML assets viztmpl g = (b, None) ->
  hook g w
  = WriteFile (Join (gen.Target (gen.g_Config g)) "schema-viz.html")
              (bytes_of b) w1.
Proof. intros E1 E2. unfold VisualizeSchema. now rewrite E1, E2. Qed.

End Hook.

Lemma generateHTML_ok_some (assets : fs.FS) (t : template.Template)
      (g : gen.Graph) (b : bytes) :
  generateHTML assets t g = (b, None) -> exists page, b = Some page.
Proof.
  unfold generateHTML.
  repeat match goal with
         | |- context [fs.ReadFile ?a ?n] => destruct (fs.ReadFile a n)
         end;
    try discriminate.
  unfold json.Marshal. cbv iota.
  destruct (template.Execute _ _ _) as [b' [e|]]; [discriminate|].
  intros [= <-]. eauto.
Qed.

Lemma WriteFile_no_fault (name data : string) (files : os.Files) :
  os.WriteFile os.no_fault name data files
  = (<[name := data]> (<[name := ""]> files), None).
Proof. reflexivity. Qed.

(** C8: the hook runs the wrapped generator first, on the state it was
    given. If that fails, the hook returns its error and leaves the state as
    the generator left it. Otherwise it renders the page; if an asset is
    missing or the template fails, the hook returns that error and again
    leaves the state as the generator left it, so nothing is written.
    Otherwise its result is that of the one write of the page to
    [schema-viz.html] joined to the target directory of the configuration,
    from the state the generator left; with a write that succeeds, the file
    then holds the page and no other file has changed. *)
Theorem hook_sequence (assets : fs.FS) (viztmpl : template.Template)
        (World : Type)
        (WriteFile : string -> string -> World -> World * option error)
        (Join : string -> string -> string)
        (next : Generator World) (g : gen.Graph) (w : World) :
  (forall w1 err,
      next g w = (w1, Some err) ->
      VisualizeSchema assets viztmpl World WriteFile Join next g w
      = (w1, Some err))
  /\ (forall w1 b err,
         next g w = (w1, None) ->
         generateHTML assets viztmpl g = (b, Some err) ->
         VisualizeSchema assets viztmpl World WriteFile Join next g w
         = (w1, Some err))
  /\ (forall w1 b,
         next g w = (w1, None) ->
         generateHTML assets viztmpl g = (b, None) ->
         exists page,
           b = Some page
           /\ VisualizeSchema assets viztmpl World WriteFile Join next g w
              = WriteFile (Join (gen.Target (gen.g_Config g)) "schema-viz.html")
                          page w1)
  /\ (forall (nxt : Generator os.Files) (files files1 : os.Files) page,
         nxt g files = (files1, None) ->
         generateHTML assets viztmpl g = (Some page, None) ->
         exists files2,
           VisualizeSchema assets viztmpl os.Files (os.WriteFile os.no_fault)
                           Join nxt g files
           = (files2, None)
           /\ files2 !! Join (gen.Target (gen.g_Config g)) "schema-viz.html"
              = Some page
           /\ forall name,
               name <> Join (gen.Target (gen.g_Config g)) "schema-viz.html" ->
               files2 !! name = files1 !! name).
Proof.
  split; [|split; [|split]].
  - intros w1 err. apply hook_next_fails.
  - intros w1 b err. apply hook_render_fails.
  - intros w1 b E1 E2. destruct (generateHTML_ok_some _ _ _ _ E2) as [page ->].
    exists page. split; [reflexivity|].
    now rewrite (hook_writes _ _ _ _ _ _ _ _ _ _ E1 E2).
  - intros nxt files files1 page E1 E2.
    rewrite (hook_writes _ _ _ _ _ _ _ _ _ _ E1 E2).
    cbn [bytes_of]. rewrite WriteFile_no_fault.
    eexists. split; [reflexivity|]. split.
    + apply lookup_insert_eq.
    + intros name Hn. now rewrite !lookup_insert_ne by congruence.
Qed.

(** A generation on the sample assets: the wrapped generator writes a file
    of its own, the hook adds the page. *)
Lemma hook_sequence_witness :
  exists files2 : os.Files,
    VisualizeSchema sample_assets [template.Text "<html></html>"] os.Files
      (os.WriteFile os.no_fault) join_clean
      (fun _ files => (<["ent/client.go" := "package ent"]> files, None))
      userPet ∅
    = (files2, None)
    /\ files2 !! join_clean (gen.Target (gen.g_Config userPet)) "schema-viz.html"
       = Some "<html></html>"
    /\ forall name,
        name <> join_clean (gen.Target (gen.g_Config userPet)) "schema-viz.html" ->
        files2 !! name
        = (<["ent/client.go" := "package ent"]> (∅ : os.Files)) !! name.
Proof.
  destruct (hook_sequence sample_assets [template.Text "<html></html>"]
              os.Files (os.WriteFile os.no_fault) join_clean
              (fun _ files => (<["ent/client.go" := "package ent"]> files, None))
              userPet ∅) as (_ & _ & _ & H).
  apply (H (fun _ files => (<["ent/client.go" := "package ent"]> files, None))
           ∅ (<["ent/client.go" := "package ent"]> ∅) "<html></html>");
    reflexivity.
Defined.

(** ** A write that fails *)

(** C9, as stated, fails: when the write fails after three bytes, the hook
    returns the error and the file is there with those three bytes of the
    page. *)
Lemma failed_write_leaves_partial_file :
  exists files : os.Files,
    VisualizeSchema sample_assets [template.Text "<html></html>"] os.Files
      (os.WriteFile disk_full) join_clean (fun _ files => (files, None))
      userPet ∅
    = (files, Some (ErrExternal "no space left on device"))
    /\ files !! "ent/schema-viz.html" = Some "<ht".
Proof. eexists. split; reflexivity. Qed.

(** C9, amended: the error of a write that fails is returned as it is. The
    write is one call of [os.WriteFile], which is not atomic: if the file
    cannot be opened the files are as the wrapped generator left them;
    otherwise the file was truncated, and it holds the bytes written before
    the error, a prefix of the page, or, after an error on closing alone, the
    page. *)
Theorem failed_write_outcome (assets : fs.FS) (viztmpl : template.Template)
        (Join : string -> string -> string) (next : Generator os.Files)
        (flt : os.Fault) (g : gen.Graph) (files files1 files2 : os.Files)
        (page : string) (err : error) :
  next g files = (files1, None) ->
  generateHTML assets viztmpl g = (Some page, None) ->
  os.WriteFile flt (Join (gen.Target (gen.g_Config g)) "schema-viz.html")
               page files1
  = (files2, Some err) ->
  VisualizeSchema assets viztmpl os.Files (os.WriteFile flt) Join next g files
  = (files2, Some err)
  /\ (os.open_fault flt = Some err /\ files2 = files1
      \/ os.open_fault flt = None
         /\ (forall name,
               name <> Join (gen.Target (gen.g_Config g)) "schema-viz.html" ->
               files2 !! name = files1 !! name)
         /\ ((exists n,
                os.write_fault flt = Some (n, err)
                /\ files2 !! Join (gen.Target (gen.g_Config g)) "schema-viz.html"
                   = Some (take_bytes n page))
             \/ (os.write_fault flt = None
                 /\ os.close_fault flt = Some err
                 /\ files2 !! Join (gen.Target (gen.g_Config g)) "schema-viz.html"
                    = Some page))).
Proof.
  intros E1 E2 E3. split.
  - now rewrite (hook_writes _ _ _ _ _ _ _ _ _ _ E1 E2).
  - revert E3. unfold os.WriteFile.
    destruct (os.open_fault flt) as [e|]; [intros [= <- <-]; now left|].
    right. split; [reflexivity|].
    destruct (os.write_fault flt) as [[n e]|].
    + assert (E : (let '(files0, err0) :=
                     (<[Join (gen.Target (gen.g_Config g)) "schema-viz.html"
                        := take_bytes n page]>
                        (<[Join (gen.Target (gen.g_Config g)) "schema-viz.html"
                           := ""]> files1), Some e) in
                   match os.close_fault flt, err0 with
                   | Some err1, None => (files0, Some err1)
                   | _, _ => (files0, err0)
                   end)
                  = (<[Join (gen.Target (gen.g_Config g)) "schema-viz.html"
                       := take_bytes n page]>
                       (<[Join (gen.Target (gen.g_Config g)) "schema-viz.html"
                          := ""]> files1), Some e))
        by (destruct (os.close_fault flt); reflexivity).
      rewrite E in E3. injection E3 as <- <-. split.
      * intros name Hn. now rewrite !lookup_insert_ne by congruence.
      * left. exists n. split; [reflexivity|]. apply lookup_insert_eq.
    + destruct (os.close_fault flt) as [e|]; [|discriminate].
      injection E3 as <- <-. split.
      * intros name Hn. now rewrite !lookup_insert_ne by congruence.
      * right. split; [reflexivity|]. split; [reflexivity|].
        apply lookup_insert_eq.
Qed.

(** The failed write of above. *)
Lemma failed_write_outcome_witness :
  VisualizeSchema sample_assets [template.Text "<html></html>"] os.Files
    (os.WriteFile disk_full) join_clean (fun _ files => (files, None))
    userPet ∅
  = (<["ent/schema-viz.html" := "<ht"]> (<["ent/schema-viz.html" := ""]> ∅),
     Some (ErrExternal "no space left on device")).
Proof.
  apply (failed_write_outcome sample_assets [template.Text "<html></html>"]
           join_clean (fun _ files => (files, None)) disk_full userPet
           ∅ ∅ _ "<html></html>" (ErrExternal "no space left on device"));
    reflexivity.
Defined.

(** ** More on the reducer *)

Lemma filter_canonical_idem (es : list gen.Edge) :
  List.filter canonical (List.filter canonical es) = List.filter canonical es.
Proof.
  induction es as [|e es IH]; simpl; [reflexivity|].
  destruct (canonical e) eqn:E; simpl; [rewrite E, IH; reflexivity | exact IH].
Qed.

Lemma node_of_canonical_only (n : gen.Type_) : node_of (canonical_only n) = node_of n.
Proof. reflexivity. Qed.

Lemma edges_of_canonical_only (n : gen.Type_) :
  edges_of (canonical_only n) = edges_of n.
Proof.
  unfold edges_of, canonical_only. simpl. rewrite filter_canonical_idem.
  reflexivity.
Qed.

Lemma flat_map_canonical_only (l : list gen.Type_) :
  flat_map edges_of (map canonical_only l) = flat_map edges_of l.
Proof.
  induction l as [|n l IH]; simpl; [reflexivity|].
  now rewrite edges_of_canonical_only, IH.
Qed.

(** X1: every edge of the reduced graph starts at a node of the reduced
    graph: its [from] is the [id] of one of the nodes. *)
Theorem edge_from_is_node (g : gen.Graph) (e : jsEdge) :
  In e (elems (Edges (toJsGraph g))) ->
  exists n, In n (elems (Nodes (toJsGraph g))) /\ ID n = From e.
Proof.
  rewrite toJsGraph_eq. simpl. rewrite !elems_appended.
  intros (t & Ht & He)%in_flat_map. unfold edges_of in He.
  apply in_map_iff in He as (d & <- & _).
  exists (node_of t). split; [|reflexivity].
  apply in_map_iff. exists t. split; [reflexivity | exact Ht].
Qed.

Lemma edge_from_is_node_witness :
  exists n, In n (elems (Nodes (toJsGraph userPet))) /\ ID n = "User".
Proof.
  apply (edge_from_is_node userPet (mkJsEdge "User" "Pet" "pets")).
  simpl. left. reflexivity.
Defined.

(** X2: the inverse declarations have no part in the result: the graph
    without them reduces to the same graph, and so has the same payload. *)
Theorem inverses_do_not_matter (g : gen.Graph) :
  toJsGraph (without_inverses g) = toJsGraph g
  /\ graphJSON (without_inverses g) = graphJSON g.
Proof.
  assert (H : toJsGraph (without_inverses g) = toJsGraph g).
  { rewrite !toJsGraph_eq. unfold without_inverses. simpl.
    rewrite map_map, flat_map_canonical_only. reflexivity. }
  split; [exact H|]. unfold graphJSON. now rewrite H.
Qed.

(** X3: the reducer never makes a slice that is empty and not nil: the
    slice of nodes is nil exactly when the graph has no entity, the slice of
    edges exactly when no declaration is a non-inverse one, and the slice of
    fields of a node exactly when its entity has no field. *)
Theorem nil_exactly_when_empty (g : gen.Graph) :
  (Nodes (toJsGraph g) = None <-> gen.g_Nodes g = [])
  /\ (Edges (toJsGraph g) = None <-> canonical_count g = 0)
  /\ Nodes (toJsGraph g) <> Some []
  /\ Edges (toJsGraph g) <> Some []
  /\ (forall t, In t (gen.g_Nodes g) ->
        In (node_of t) (elems (Nodes (toJsGraph g)))
        /\ (Fields (node_of t) = None <-> gen.t_Fields t = [])
        /\ Fields (node_of t) <> Some []).
Proof.
  rewrite toJsGraph_eq. simpl. rewrite elems_appended.
  assert (Hap : forall (A : Type) (l : list A),
             (appended l = None <-> l = []) /\ appended l <> Some []).
  { intros A [|x l]; simpl; split; try split; congruence. }
  split; [|split; [|split; [|split]]].
  - rewrite (proj1 (Hap _ _)). destruct (gen.g_Nodes g); simpl; split; congruence.
  - rewrite (proj1 (Hap _ _)). unfold canonical_count.
    rewrite <- length_flat_map_edges_of.
    destruct (flat_map edges_of (gen.g_Nodes g)); simpl; split; congruence.
  - apply Hap.
  - apply Hap.
  - intros t Ht. split; [|split].
    + apply in_map_iff. exists t. auto.
    + unfold node_of. simpl. rewrite (proj1 (Hap _ _)).
      destruct (gen.t_Fields t); simpl; split; congruence.
    + apply Hap.
Qed.

Lemma nil_exactly_when_empty_witness :
  In (node_of (gen.mkType "Pet" [] [])) (elems (Nodes (toJsGraph userPet)))
  /\ (Fields (node_of (gen.mkType "Pet" [] [])) = None
      <-> gen.t_Fields (gen.mkType "Pet" [] []) = [])
  /\ Fields (node_of (gen.mkType "Pet" [] [])) <> Some [].
Proof.
  destruct (nil_exactly_when_empty userPet) as (_ & _ & _ & _ & H).
  apply H. simpl. right. left. reflexivity.
Defined.

(** X4: the entities are reduced one by one: the nodes and the edges of a
    graph whose entities are those of one list followed by those of another
    are the nodes and the edges of the first followed by those of the
    second. *)
Theorem toJsGraph_app (c : gen.Config) (l1 l2 : list gen.Type_) :
  elems (Nodes (toJsGraph (gen.mkGraph c (l1 ++ l2))))
  = elems (Nodes (toJsGraph (gen.mkGraph c l1)))
    ++ elems (Nodes (toJsGraph (gen.mkGraph c l2)))
  /\ elems (Edges (toJsGraph (gen.mkGraph c (l1 ++ l2))))
     = elems (Edges (toJsGraph (gen.mkGraph c l1)))
       ++ elems (Edges (toJsGraph (gen.mkGraph c l2))).
Proof.
  rewrite !toJsGraph_eq. simpl. rewrite !elems_appended.
  split; [apply map_app | apply flat_map_app].
Qed.

(** ** More on the payload *)

Section MorePayload.

Local Open Scope N_scope.

Lemma htmlSafeSet_ascii (b : N) : json.htmlSafeSet b = true -> b < 0x80.
Proof.
  unfold json.htmlSafeSet.
  destruct (N.ltb_spec b 0x80); [auto|].
  rewrite andb_false_r. discriminate.
Qed.

Lemma loop_safe (n : nat) (s : string) :
  (String.length s <= n)%nat ->
  all_bytes json.htmlSafeSet s = true ->
  json.appendString_loop n s = s.
Proof.
  revert s. induction n as [|n IH]; intros s Hn Hs.
  - destruct s; [reflexivity | simpl in Hn; lia].
  - destruct s as [|c rest]; [reflexivity|].
    simpl in Hs. apply andb_true_iff in Hs as [Hc Hr]. simpl in Hn.
    rewrite loop_ascii by (now apply htmlSafeSet_ascii).
    rewrite Hc, (IH rest) by (lia || assumption). reflexivity.
Qed.

Lemma appendString_safe (s : string) :
  all_bytes json.htmlSafeSet s = true ->
  json.appendString s = String dquote (s +:+ String dquote "").
Proof.
  intros H. unfold json.appendString, json.escaped.
  now rewrite loop_safe by (lia || assumption).
Qed.

(** X5: a field whose name, type and comment are made of printable ASCII
    other than the double quote, the backslash and [<], [>], [&] is written
    with the three texts as they are between their quotes. *)
Theorem plain_field_verbatim (f : jsField) :
  all_bytes json.htmlSafeSet (Name f) = true ->
  all_bytes json.htmlSafeSet (Type_ f) = true ->
  all_bytes json.htmlSafeSet (Comment f) = true ->
  Marshal_jsField f
  = js "{'name':'" +:+ Name f +:+ js "','type':'" +:+ Type_ f
    +:+ js "','comment':'" +:+ Comment f +:+ js "'}".
Proof.
  intros Hn Ht Hc. rewrite Marshal_jsField_eq.
  rewrite !appendString_safe by assumption.
  norm_app. reflexivity.
Qed.

Lemma plain_field_verbatim_witness :
  Marshal_jsField (mkJsField "age" "int" "years, 0-1000")
  = js "{'name':'age','type':'int','comment':'years, 0-1000'}".
Proof.
  apply (plain_field_verbatim (mkJsField "age" "int" "years, 0-1000"));
    reflexivity.
Defined.

(** *** The length of the escaped text *)

Lemma escape_byte_length_le (c : ascii) :
  (String.length (json.escape_byte (N_of_ascii c)) <= 6)%nat.
Proof. each_byte c; vm_compute; lia. Qed.

Lemma loop_length (n : nat) (s : string) :
  (String.length s <= n)%nat ->
  (String.length s <= String.length (json.appendString_loop n s)
   <= 6 * String.length s)%nat.
Proof.
  revert s. induction n as [|n IH]; intros s Hn.
  - destruct s; simpl in *; lia.
  - destruct s as [|c rest]; [simpl; lia|]. simpl in Hn.
    destruct (loop_cases n c rest)
      as [[H E]|[(H & Hd & E)
               |(bs & rest' & r & Heq & Hl & Hge & Hdec & Henc & Hr & E)]];
      rewrite E, length_app_s.
    + specialize (IH rest ltac:(lia)).
      pose proof (escape_byte_length c). pose proof (escape_byte_length_le c).
      destruct (json.htmlSafeSet (N_of_ascii c)); simpl String.length; lia.
    + specialize (IH rest ltac:(lia)). simpl String.length. lia.
    + assert (Hlen : String.length (String c rest)
                     = (String.length bs + String.length rest')%nat)
        by (rewrite Heq; apply length_app_s).
      rewrite Hlen. simpl in Hlen.
      specialize (IH rest' ltac:(lia)).
      destruct ((r =? 0x2028) || (r =? 0x2029)); simpl String.length; lia.
Qed.

Lemma appendString_length (s : string) :
  (String.length s + 2 <= String.length (json.appendString s)
   <= 6 * String.length s + 2)%nat.
Proof.
  unfold json.appendString, json.escaped. simpl String.length.
  rewrite length_app_s. simpl String.length.
  pose proof (loop_length (String.length s) s ltac:(lia)). lia.
Qed.

(** X6: the text of a field is at least as long as its name, type and
    comment together and at most six times as long, the 34 bytes of braces,
    keys, colons, commas and quotes apart: no byte of the three texts is
    dropped, and one byte gives at most six. *)
Theorem field_text_length (f : jsField) :
  let n := (String.length (Name f) + String.length (Type_ f)
            + String.length (Comment f))%nat in
  (n + 34 <= String.length (Marshal_jsField f) <= 6 * n + 34)%nat.
Proof.
  intros n. subst n. rewrite Marshal_jsField_eq. rewrite !length_app_s.
  pose proof (appendString_length (Name f)).
  pose proof (appendString_length (Type_ f)).
  pose proof (appendString_length (Comment f)).
  set (a := json.appendString (Name f)) in *. clearbody a.
  set (b := json.appendString (Type_ f)) in *. clearbody b.
  set (c := json.appendString (Comment f)) in *. clearbody c.
  simpl String.length. lia.
Qed.

End MorePayload.

(** ** The payload is well-formed UTF-8 *)

Section WellFormed.

Local Open Scope N_scope.

Lemma head_cases (c : ascii) (rest : string) :
  N_of_ascii c < 0x80
  \/ utf8.DecodeRuneInString (String c rest) = (utf8.RuneError, 1%nat)
  \/ exists bs rest' r,
      String c rest = bs +:+ rest'
      /\ (2 <= String.length bs <= 4)%nat
      /\ forall t, utf8.DecodeRuneInString (bs +:+ t) = (r, String.length bs).
Proof.
  destruct (N.lt_ge_cases (N_of_ascii c) 0x80) as [H|H]; [now left|].
  right. destruct (decode_cases c rest H) as [E|(size & Hs & _)]; [now left|].
  right. destruct (sequence_spec _ _ Hs)
    as (bs & rest' & r & Heq & Hl & Hsz & _ & Hdec & _).
  exists bs, rest', r. subst size. auto.
Qed.

Lemma valid_fuel (n1 : nat) :
  forall (n2 : nat) (s : string),
    (String.length s <= n1)%nat -> (String.length s <= n2)%nat ->
    utf8.valid_loop n1 s = utf8.valid_loop n2 s.
Proof.
  induction n1 as [|n1 IH]; intros n2 s H1 H2.
  - destruct s; [destruct n2; reflexivity | simpl in H1; lia].
  - destruct s as [|c rest]; [destruct n2; reflexivity|].
    destruct n2 as [|n2]; [simpl in H2; lia|]. simpl in H1, H2.
    destruct (head_cases c rest) as [H|[E|(bs & rest' & r & Heq & Hl & Hdec)]].
    + rewrite !valid_loop_ascii by exact H. apply IH; lia.
    + now rewrite !valid_loop_malformed by exact E.
    + rewrite Heq.
      rewrite !(valid_loop_sequence _ bs rest' r) by (try apply Hdec; lia).
      apply (f_equal String.length) in Heq. rewrite length_app_s in Heq.
      simpl in Heq. apply IH; lia.
Qed.

Lemma valid_app (n : nat) :
  forall (a b : string) (m : nat),
    utf8.valid_loop n a = true -> utf8.valid_loop m b = true ->
    (String.length b <= m)%nat ->
    utf8.valid_loop (n + m) (a +:+ b) = true.
Proof.
  induction n as [|n IH]; intros a b m Ha Hb Hm.
  - destruct a; [exact Hb | discriminate Ha].
  - destruct a as [|c rest].
    + change ("" +:+ b) with b.
      rewrite (valid_fuel (S n + m) m) by lia. exact Hb.
    + change (S n + m)%nat with (S (n + m)).
      change (String c rest +:+ b) with (String c (rest +:+ b)).
      destruct (head_cases c rest) as [H|[E|(bs & rest' & r & Heq & Hl & Hdec)]].
      * rewrite valid_loop_ascii in Ha |- * by exact H. now apply IH.
      * now rewrite (valid_loop_malformed n c rest E) in Ha.
      * change (String c (rest +:+ b)) with (String c rest +:+ b).
        rewrite Heq in Ha |- *. rewrite app_assoc_s.
        rewrite (valid_loop_sequence n bs rest' r) in Ha
          by (try apply Hdec; lia).
        rewrite (valid_loop_sequence (n + m) bs (rest' +:+ b) r)
          by (try apply Hdec; lia).
        now apply IH.
Qed.

Lemma well_formed_app (a b : string) :
  utf8.well_formed a = true -> utf8.well_formed b = true ->
  utf8.well_formed (a +:+ b) = true.
Proof.
  unfold utf8.well_formed. intros Ha Hb. rewrite length_app_s.
  apply valid_app; [exact Ha | exact Hb | lia].
Qed.

Lemma well_formed_ascii (s : string) :
  ascii_only s = true -> utf8.well_formed s = true.
Proof.
  unfold utf8.well_formed, ascii_only.
  induction s as [|c s IH]; [reflexivity|]. simpl String.length.
  cbn [all_bytes]. intros [Hc Hs]%andb_true_iff. apply N.ltb_lt in Hc.
  rewrite valid_loop_ascii by exact Hc. now apply IH.
Qed.

Lemma well_formed_sequence (bs X : string) (r : N) :
  (2 <= String.length bs)%nat ->
  utf8.DecodeRuneInString (bs +:+ X) = (r, String.length bs) ->
  utf8.well_formed X = true ->
  utf8.well_formed (bs +:+ X) = true.
Proof.
  unfold utf8.well_formed. intros Hl Hdec HX. rewrite length_app_s.
  replace (String.length bs + String.length X)%nat
    with (S (Nat.pred (String.length bs) + String.length X)) by lia.
  rewrite (valid_loop_sequence _ bs X r Hl Hdec).
  rewrite (valid_fuel _ (String.length X)) by lia. exact HX.
Qed.

Lemma escape_byte_ascii (c : ascii) :
  ascii_only (json.escape_byte (N_of_ascii c)) = true.
Proof. each_byte c; vm_compute; reflexivity. Qed.

Lemma loop_well_formed (n : nat) (src : string) :
  utf8.well_formed (json.appendString_loop n src) = true.
Proof.
  revert src. induction n as [|n IH]; intros src; [reflexivity|].
  destruct src as [|c rest]; [reflexivity|].
  destruct (loop_cases n c rest)
    as [[H E]|[(H & Hd & E)
             |(bs & rest' & r & Heq & Hl & Hge & Hdec & Henc & Hr & E)]];
    rewrite E.
  - apply well_formed_app; [|apply IH]. apply well_formed_ascii.
    destruct (json.htmlSafeSet (N_of_ascii c)).
    + unfold ascii_only. simpl. apply N.ltb_lt in H. now rewrite H.
    + apply escape_byte_ascii.
  - apply well_formed_app; [reflexivity | apply IH].
  - destruct ((r =? 0x2028) || (r =? 0x2029)) eqn:Hsep.
    + apply well_formed_app; [|apply IH].
      destruct (sep_cases r Hsep) as [-> | ->]; reflexivity.
    + apply (well_formed_sequence bs _ r); [lia | apply Hdec | apply IH].
Qed.

Lemma appendString_well_formed (s : string) :
  utf8.well_formed (json.appendString s) = true.
Proof.
  unfold json.appendString, json.escaped.
  change (String dquote ?X) with (String dquote "" +:+ X).
  apply well_formed_app; [reflexivity|].
  apply well_formed_app; [apply loop_well_formed | reflexivity].
Qed.

Lemma concat_well_formed (sep : string) (l : list string) :
  utf8.well_formed sep = true ->
  Forall (fun s => utf8.well_formed s = true) l ->
  utf8.well_formed (String.concat sep l) = true.
Proof.
  intros Hsep H. induction H as [|s l Hs Hl IH]; [reflexivity|].
  simpl. destruct l as [|s' l']; [exact Hs|].
  apply well_formed_app; [exact Hs|]. apply well_formed_app; assumption.
Qed.

Lemma encode_slice_well_formed {A : Type} (enc : A -> string) (s : slice A) :
  (forall x, utf8.well_formed (enc x) = true) ->
  utf8.well_formed (encode_slice enc s) = true.
Proof.
  intros H. destruct s as [l|]; [|reflexivity]. unfold encode_slice.
  apply well_formed_app; [reflexivity|].
  apply well_formed_app; [|reflexivity].
  apply concat_well_formed; [reflexivity|].
  induction l as [|x l IH]; simpl; constructor; [apply H | exact IH].
Qed.

Ltac wf_pieces :=
  repeat (apply well_formed_app;
          [first [reflexivity | apply appendString_well_formed | assumption]|]);
  try reflexivity.

Lemma Marshal_jsField_well_formed (f : jsField) :
  utf8.well_formed (Marshal_jsField f) = true.
Proof. rewrite Marshal_jsField_eq. wf_pieces. Qed.

Lemma encode_jsEdge_well_formed (e : jsEdge) :
  utf8.well_formed (encode_jsEdge e) = true.
Proof. unfold encode_jsEdge. wf_pieces. Qed.

Lemma encode_jsNode_well_formed (n : jsNode) :
  utf8.well_formed (encode_jsNode n) = true.
Proof.
  unfold encode_jsNode.
  pose proof (encode_slice_well_formed _ (Fields n) Marshal_jsField_well_formed).
  wf_pieces.
Qed.

(** X7: the payload is well-formed UTF-8 whatever the bytes of the names
    and comments of the graph are: a byte that is not part of a well-formed
    sequence is not copied to it. *)
Theorem payload_well_formed (g : gen.Graph) :
  utf8.well_formed (graphJSON g) = true.
Proof.
  unfold graphJSON. rewrite Marshal_eq.
  pose proof (encode_slice_well_formed _ (Nodes (toJsGraph g))
                encode_jsNode_well_formed).
  pose proof (encode_slice_well_formed _ (Edges (toJsGraph g))
                encode_jsEdge_well_formed).
  wf_pieces.
Qed.

End WellFormed.

(** ** The text of a field determines the field *)

Lemma app_inv_tail_s (a b t : string) : a +:+ t = b +:+ t -> a = b.
Proof.
  intros H.
  assert (Hl : String.length a = String.length b).
  { apply (f_equal String.length) in H. rewrite !length_app_s in H. lia. }
  rewrite <- (take_app_s a t), H, Hl. apply take_app_s.
Qed.

Lemma escaped_inj (a b : string) :
  utf8.well_formed a = true -> utf8.well_formed b = true ->
  json.escaped a = json.escaped b -> a = b.
Proof.
  intros Ha Hb H.
  pose proof (unquote_escaped (String.length a) a _ Ha (Nat.le_refl _)) as Ea.
  pose proof (unquote_escaped (String.length b) b _ Hb (Nat.le_refl _)) as Eb.
  fold (json.escaped a) in Ea. fold (json.escaped b) in Eb.
  rewrite H in Ea. congruence.
Qed.

Lemma literal_split (a b R1 R2 : string) :
  utf8.well_formed a = true -> utf8.well_formed b = true ->
  json.escaped a +:+ String dquote R1 = json.escaped b +:+ String dquote R2 ->
  a = b /\ R1 = R2.
Proof.
  intros Ha Hb H.
  assert (HR : R1 = R2).
  { pose proof (after_literal_appendString a R1) as E1.
    rewrite H, after_literal_appendString in E1. congruence. }
  subst R2. split; [|reflexivity].
  apply escaped_inj; [assumption..|]. now apply app_inv_tail_s in H.
Qed.

Ltac peel H :=
  repeat match type of H with
         | String _ _ = String _ _ => injection H as H
         end.

(** ** The payload determines the reduced graph *)

Lemma string_tail_eq (c d : ascii) (a b : string) :
  String c a = String d b -> a = b.
Proof. now intros [= _ ->]. Qed.

Lemma value_split (x1 x2 R1 R2 : string) :
  one_value x1 -> one_value x2 ->
  x1 +:+ R1 = x2 +:+ R2 -> x1 = x2 /\ R1 = R2.
Proof.
  intros [f1 H1] [f2 H2] H.
  assert (HR : R1 = R2).
  { pose proof (skip_le f1 (Nat.max f1 f2) Value _ _ (Nat.le_max_l _ _) (H1 R1)) as E1.
    pose proof (skip_le f2 (Nat.max f1 f2) Value _ _ (Nat.le_max_r _ _) (H2 R2)) as E2.
    rewrite H in E1. congruence. }
  subst R2. split; [|reflexivity]. now apply app_inv_tail_s in H.
Qed.

Section Slices.

Context {A : Type} (enc : A -> string) (P : A -> Prop).
Hypothesis enc_value : forall x, one_value (enc x).
Hypothesis enc_inj : forall x y, P x -> P y -> enc x = enc y -> x = y.

Lemma concat_cons_after (x : A) (l : list A) :
  String.concat "," (map enc (x :: l)) +:+ "]" = enc x +:+ after_elem enc l.
Proof.
  destruct l as [|y l]; [reflexivity|].
  cbn [map String.concat after_elem]. now rewrite !app_assoc_s.
Qed.

Lemma after_elem_inj (l1 : list A) :
  forall l2, Forall P l1 -> Forall P l2 ->
             after_elem enc l1 = after_elem enc l2 -> l1 = l2.
Proof using enc_value enc_inj.
  induction l1 as [|x l1 IH]; intros [|y l2] H1 H2 H; try reflexivity;
    try discriminate H.
  unfold after_elem in H.
  change ("," +:+ ?X) with (String "," X) in H. apply string_tail_eq in H.
  rewrite !concat_cons_after in H.
  apply value_split in H as [Hx Hl]; [|apply enc_value..].
  inversion H1; inversion H2; subst.
  f_equal; [now apply enc_inj | now apply IH].
Qed.

Lemma encode_slice_inj (s1 s2 : slice A) :
  Forall P (elems s1) -> Forall P (elems s2) ->
  encode_slice enc s1 = encode_slice enc s2 -> s1 = s2.
Proof using enc_value enc_inj.
  intros H1 H2 H. destruct s1 as [l1|], s2 as [l2|]; try reflexivity;
    try discriminate H.
  unfold encode_slice in H.
  change ("[" +:+ ?X) with (String "[" X) in H. apply string_tail_eq in H.
  f_equal. simpl in H1, H2.
  destruct l1 as [|x l1], l2 as [|y l2]; try reflexivity.
  - rewrite concat_cons_after in H.
    destruct (one_value_first _ (enc_value y)) as (c & s' & Hc & Hnb).
    rewrite Hc in H. injection H as H _. subst c. discriminate Hnb.
  - rewrite concat_cons_after in H.
    destruct (one_value_first _ (enc_value x)) as (c & s' & Hc & Hnb).
    rewrite Hc in H. injection H as H _. subst c. discriminate Hnb.
  - rewrite !concat_cons_after in H.
    apply value_split in H as [Hx Hl]; [|apply enc_value..].
    inversion H1; inversion H2; subst.
    f_equal; [now apply enc_inj | now apply after_elem_inj].
Qed.

End Slices.

Lemma Marshal_jsField_inj (f1 f2 : jsField) :
  wf_field f1 -> wf_field f2 ->
  Marshal_jsField f1 = Marshal_jsField f2 -> f1 = f2.
Proof.
  intros (Hn1 & Ht1 & Hc1) (Hn2 & Ht2 & Hc2) H.
  rewrite !Marshal_jsField_eq in H. unfold json.appendString in H.
  destruct f1 as [n1 t1 c1], f2 as [n2 t2 c2]. cbn [Name Type_ Comment] in *.
  revert H. norm_app. intros H. peel H.
  apply literal_split in H as [-> H]; [|assumption..]. peel H.
  apply literal_split in H as [-> H]; [|assumption..]. peel H.
  apply literal_split in H as [-> H]; [|assumption..]. reflexivity.
Qed.

Lemma encode_jsEdge_inj (e1 e2 : jsEdge) :
  wf_edge e1 -> wf_edge e2 -> encode_jsEdge e1 = encode_jsEdge e2 -> e1 = e2.
Proof.
  intros (Hn1 & Ht1 & Hc1) (Hn2 & Ht2 & Hc2) H.
  unfold encode_jsEdge, json.appendString in H.
  destruct e1 as [n1 t1 c1], e2 as [n2 t2 c2]. cbn [From To Label] in *.
  revert H. norm_app. intros H. peel H.
  apply literal_split in H as [-> H]; [|assumption..]. peel H.
  apply literal_split in H as [-> H]; [|assumption..]. peel H.
  apply literal_split in H as [-> H]; [|assumption..]. reflexivity.
Qed.

Lemma one_value_encode_jsNode (n : jsNode) : one_value (encode_jsNode n).
Proof. rewrite <- encode_value_of_jsNode. apply one_value_jsNode. Qed.

Lemma one_value_encode_jsEdge (e : jsEdge) : one_value (encode_jsEdge e).
Proof. rewrite <- encode_value_of_jsEdge. apply one_value_jsEdge. Qed.

Lemma encode_jsNode_inj (n1 n2 : jsNode) :
  wf_node n1 -> wf_node n2 -> encode_jsNode n1 = encode_jsNode n2 -> n1 = n2.
Proof.
  intros [Hi1 Hf1] [Hi2 Hf2] H.
  unfold encode_jsNode, json.appendString in H.
  destruct n1 as [i1 fs1], n2 as [i2 fs2]. cbn [ID Fields] in *.
  revert H. norm_app. intros H. peel H.
  apply literal_split in H as [-> H]; [|assumption..]. peel H.
  apply app_inv_tail_s in H.
  apply (encode_slice_inj Marshal_jsField wf_field one_value_jsField
           Marshal_jsField_inj) in H; [|assumption..].
  now subst.
Qed.

Lemma Marshal_inj (g1 g2 : jsGraph) :
  wf_graph g1 -> wf_graph g2 -> Marshal g1 = Marshal g2 -> g1 = g2.
Proof.
  intros [Hn1 He1] [Hn2 He2] H. rewrite !Marshal_eq in H.
  destruct g1 as [ns1 es1], g2 as [ns2 es2]. cbn [Nodes Edges] in *.
  revert H. norm_app. intros H. peel H.
  apply value_split in H as [Hns H];
    [|apply one_value_slice; exact one_value_encode_jsNode..].
  apply (encode_slice_inj encode_jsNode wf_node one_value_encode_jsNode
           encode_jsNode_inj) in Hns; [|assumption..].
  peel H. apply app_inv_tail_s in H.
  apply (encode_slice_inj encode_jsEdge wf_edge one_value_encode_jsEdge
           encode_jsEdge_inj) in H; [|assumption..].
  now subst.
Qed.

(** X16: the payload determines the reduced graph: two reduced graphs whose
    texts are well-formed UTF-8 and that have the same payload are the same
    graph, node by node, field by field and edge by edge. *)
Theorem payload_determines_graph (g1 g2 : gen.Graph) :
  wf_graph (toJsGraph g1) -> wf_graph (toJsGraph g2) ->
  graphJSON g1 = graphJSON g2 -> toJsGraph g1 = toJsGraph g2.
Proof. intros H1 H2 H. now apply Marshal_inj. Qed.

(** Two graphs with the same entities, of which the second has an inverse
    declaration more and another target directory. *)
Lemma payload_determines_graph_witness :
  toJsGraph userPet
  = toJsGraph
      (gen.mkGraph (gen.mkConfig "elsewhere")
         [ gen.mkType "User" [gen.mkField "name" "string" "用户姓名"]
                      [gen.mkEdge "pets" "Pet" false];
           gen.mkType "Pet" [] [gen.mkEdge "owner" "User" true] ]).
Proof.
  apply payload_determines_graph.
  - split; repeat constructor.
  - split; repeat constructor.
  - vm_compute. reflexivity.
Defined.

(** X8: two fields whose names, types and comments are well-formed UTF-8
    and that are written as the same text are the same field. *)
Theorem field_text_determines_field (f1 f2 : jsField) :
  utf8.well_formed (Name f1) = true -> utf8.well_formed (Type_ f1) = true ->
  utf8.well_formed (Comment f1) = true ->
  utf8.well_formed (Name f2) = true -> utf8.well_formed (Type_ f2) = true ->
  utf8.well_formed (Comment f2) = true ->
  Marshal_jsField f1 = Marshal_jsField f2 -> f1 = f2.
Proof.
  intros Hn1 Ht1 Hc1 Hn2 Ht2 Hc2. apply Marshal_jsField_inj; repeat split; assumption.
Qed.

Lemma field_text_determines_field_witness :
  mkJsField "name" "string" "用户姓名" = mkJsField "name" "string" "用户姓名".
Proof.
  apply (field_text_determines_field (mkJsField "name" "string" "用户姓名")
           (mkJsField "name" "string" "用户姓名"));
    vm_compute; reflexivity.
Defined.

(** ** More on rendering *)




(** X9: the assets are read in the order stylesheet, network library, colour
    library, before the template is looked at: rendering fails on the first
    of them that is missing, whatever the later ones and the template are. *)
Theorem first_missing_asset (assets : fs.FS) (t : template.Template)
        (g : gen.Graph) :
  (assets !! "assets/fira_code.css" = None ->
   generateHTML assets t g = (None, Some (ErrNotExist "assets/fira_code.css")))
  /\ (assets !! "assets/fira_code.css" <> None ->
      assets !! "assets/vis-network.min.js" = None ->
      generateHTML assets t g
      = (None, Some (ErrNotExist "assets/vis-network.min.js")))
  /\ (assets !! "assets/fira_code.css" <> None ->
      assets !! "assets/vis-network.min.js" <> None ->
      assets !! "assets/randomcolor.min.js" = None ->
      generateHTML assets t g
      = (None, Some (ErrNotExist "assets/randomcolor.min.js"))).
Proof.
  unfold generateHTML, fs.ReadFile. repeat split.
  - intros ->. reflexivity.
  - intros H1 ->. destruct (assets !! "assets/fira_code.css"); [reflexivity|].
    now destruct H1.
  - intros H1 H2 ->. destruct (assets !! "assets/fira_code.css"); [|now destruct H1].
    destruct (assets !! "assets/vis-network.min.js"); [reflexivity|].
    now destruct H2.
Qed.

Lemma first_missing_asset_witness :
  generateHTML (<["assets/fira_code.css" := "body{}"]> ∅)
    [template.Field "Bogus"] userPet
  = (None, Some (ErrNotExist "assets/vis-network.min.js")).
Proof.
  destruct (first_missing_asset (<["assets/fira_code.css" := "body{}"]> ∅)
              [template.Field "Bogus"] userPet) as (_ & H & _).
  apply H; [discriminate | reflexivity].
Defined.





(** ** The two entry points *)




(** X13: the two entry points agree. On the graph that the framework loads
    for the standalone entry point, the hook, after a wrapped generator that
    succeeds and with a write that succeeds, leaves in the file of the page
    exactly the bytes that the standalone entry point returns; and when the
    standalone entry point fails on that graph, the hook fails with the same
    error and writes nothing. *)
Theorem entry_points_agree (assets : fs.FS) (t : template.Template)
        (LoadGraph : string -> option gen.Config -> gen.Graph + error)
        (Join : string -> string -> string) (next : Generator os.Files)
        (schemaPath : string) (cfg : option gen.Config) (g : gen.Graph)
        (files files1 : os.Files) :
  LoadGraph schemaPath cfg = inl g ->
  next g files = (files1, None) ->
  (forall page,
      GeneratePage assets t LoadGraph schemaPath cfg = (Some page, None) ->
      exists files2,
        VisualizeSchema assets t os.Files (os.WriteFile os.no_fault) Join next
                        g files = (files2, None)
        /\ files2 !! page_path Join g = Some page)
  /\ (forall b err,
         GeneratePage assets t LoadGraph schemaPath cfg = (b, Some err) ->
         VisualizeSchema assets t os.Files (os.WriteFile os.no_fault) Join next
                         g files = (files1, Some err)).
Proof.
  intros Hload Hnext. unfold GeneratePage. rewrite Hload. split.
  - intros page E. rewrite (hook_writes _ _ _ _ _ _ _ _ _ _ Hnext E).
    cbn [bytes_of]. rewrite WriteFile_no_fault. eexists. split; [reflexivity|].
    apply lookup_insert_eq.
  - intros b err E. exact (hook_render_fails _ _ _ _ _ _ _ _ _ _ _ Hnext E).
Qed.

Lemma entry_points_agree_witness :
  exists files2 : os.Files,
    VisualizeSchema sample_assets [template.Text "<html></html>"] os.Files
      (os.WriteFile os.no_fault) join_clean idle userPet ∅ = (files2, None)
    /\ files2 !! page_path join_clean userPet = Some "<html></html>".
Proof.
  destruct (entry_points_agree sample_assets [template.Text "<html></html>"]
              (fun _ _ => inl userPet) join_clean idle "./ent/schema" None
              userPet ∅ ∅ eq_refl eq_refl) as [H _].
  apply H. reflexivity.
Defined.

(** ** More on the hook *)

(** X14: generating again changes nothing: after a run of the hook that
    succeeds, a second run on the same graph, around a generator that leaves
    the files as they are, succeeds and leaves the files as the first run left
    them. *)
Theorem hook_twice (assets : fs.FS) (t : template.Template)
        (Join : string -> string -> string) (next : Generator os.Files)
        (g : gen.Graph) (files files2 : os.Files) :
  VisualizeSchema assets t os.Files (os.WriteFile os.no_fault) Join next g files
  = (files2, None) ->
  VisualizeSchema assets t os.Files (os.WriteFile os.no_fault) Join idle g files2
  = (files2, None).
Proof.
  intros H. unfold VisualizeSchema in H |- *.
  destruct (next g files) as [files1 [e|]]; [discriminate H|].
  unfold idle. destruct (generateHTML assets t g) as [b [e|]]; [discriminate H|].
  rewrite WriteFile_no_fault in H |- *. injection H as <-.
  now rewrite !insert_insert_eq.
Qed.

Lemma hook_twice_witness :
  VisualizeSchema sample_assets [template.Text "<html></html>"] os.Files
    (os.WriteFile os.no_fault) join_clean idle userPet
    (<["ent/schema-viz.html" := "<html></html>"]>
       (<["ent/schema-viz.html" := ""]> ∅))
  = (<["ent/schema-viz.html" := "<html></html>"]>
       (<["ent/schema-viz.html" := ""]> ∅), None).
Proof.
  apply (hook_twice sample_assets [template.Text "<html></html>"] join_clean
           idle userPet ∅).
  reflexivity.
Defined.

(** X15: whatever the write does, the hook touches no file but the page:
    every other file is as the wrapped generator left it, whether the hook
    succeeds or fails. *)
Theorem hook_touches_only_page (assets : fs.FS) (t : template.Template)
        (Join : string -> string -> string) (next : Generator os.Files)
        (flt : os.Fault) (g : gen.Graph) (files files1 files2 : os.Files)
        (e1 e2 : option error) (name : string) :
  next g files = (files1, e1) ->
  VisualizeSchema assets t os.Files (os.WriteFile flt) Join next g files
  = (files2, e2) ->
  name <> page_path Join g ->
  files2 !! name = files1 !! name.
Proof.
  intros Hnext H Hname. unfold VisualizeSchema in H. rewrite Hnext in H.
  destruct e1 as [e|]; [now injection H as <- _|].
  destruct (generateHTML assets t g) as [b [e|]]; [now injection H as <- _|].
  unfold os.WriteFile in H. fold (page_path Join g) in H.
  destruct (os.open_fault flt); [now injection H as <- _|].
  destruct (os.write_fault flt) as [[n e]|];
    destruct (os.close_fault flt); injection H as <- _;
    now rewrite !lookup_insert_ne by congruence.
Qed.

Lemma hook_touches_only_page_witness :
  (<["ent/schema-viz.html" := "<ht"]>
     (<["ent/schema-viz.html" := ""]>
        (<["ent/client.go" := "package ent"]> (∅ : os.Files))))
    !! "ent/client.go"
  = (<["ent/client.go" := "package ent"]> (∅ : os.Files)) !! "ent/client.go".
Proof.
  apply (hook_touches_only_page sample_assets [template.Text "<html></html>"]
           join_clean
           (fun _ files => (<["ent/client.go" := "package ent"]> files, None))
           disk_full userPet ∅ _ _ None
           (Some (ErrExternal "no space left on device")) "ent/client.go");
    [reflexivity | reflexivity | discriminate].
Defined.

(** ** Runes, encoded and decoded *)

Section Runes.

Local Open Scope N_scope.








End Runes.

